(** * Codebase Genius: the repository helpers of [BE/python_helpers]

    A shallow embedding of [repo_utils.py] ([clone_repo],
    [generate_file_tree], [read_readme]) and of [parser_utilis.py]
    ([parse_with_treesitter], [extract_code_snippet]), with the parts of the
    Python library they call: [str] methods, [os.path], UTF-8 decoding, text
    mode reading, [re] for the three patterns of the analyzer, and a small
    file system. *)

From Stdlib Require Import List String Ascii NArith ZArith Lia Bool Arith.
From Stdlib Require Import Strings.Byte DecimalString.
From Stdlib Require Import Sorting.Sorted.
Import ListNotations.

Local Open Scope N_scope.
Local Open Scope list_scope.

(** ** Python strings and bytes *)

(** A Python [str] is a sequence of Unicode code points; [bytes] a sequence of
    octets. *)
Definition str := list N.
Definition bytes := list byte.

(** An ASCII literal as a [str], and as [bytes]. *)
Definition lit (s : string) : str :=
  map N_of_ascii (list_ascii_of_string s).

Definition blit (s : string) : bytes := list_byte_of_string s.

Definition LF : N := 10.
Definition CR : N := 13.
Definition SLASH : N := 47.
Definition DOT : N := 46.

Fixpoint str_eqb (a b : str) : bool :=
  match a, b with
  | [], [] => true
  | x :: a', y :: b' => (x =? y) && str_eqb a' b'
  | _, _ => false
  end.

(** [a <= b] in Python's order on [str]: lexicographic on code points. *)
Fixpoint str_leb (a b : str) : bool :=
  match a, b with
  | [], _ => true
  | _ :: _, [] => false
  | x :: a', y :: b' => if x <? y then true else if y <? x then false else str_leb a' b'
  end.

(** [s.startswith(p)], and the rest of [s] after the prefix [p]. *)
Fixpoint strip_prefix (p s : str) : option str :=
  match p, s with
  | [], _ => Some s
  | x :: p', y :: s' => if x =? y then strip_prefix p' s' else None
  | _ :: _, [] => None
  end.

Definition startswith (s p : str) : bool :=
  match strip_prefix p s with Some _ => true | None => false end.

(** [c in cs] for a one-character test. *)
Definition char_in (c : N) (cs : str) : bool := existsb (N.eqb c) cs.

(** [s.rstrip(chars)]: drops the longest suffix made of characters of [chars]. *)
Fixpoint rstrip (chars : str) (s : str) : str :=
  match s with
  | [] => []
  | c :: s' =>
      match rstrip chars s' with
      | [] => if char_in c chars then [] else [c]
      | r => c :: r
      end
  end.

Fixpoint lstrip_by (p : N -> bool) (s : str) : str :=
  match s with
  | c :: s' => if p c then lstrip_by p s' else s
  | [] => []
  end.

Fixpoint rstrip_by (p : N -> bool) (s : str) : str :=
  match s with
  | [] => []
  | c :: s' =>
      match rstrip_by p s' with
      | [] => if p c then [] else [c]
      | r => c :: r
      end
  end.

(** The code points for which [str.isspace] holds; [str.strip()] and the
    [\s] of [re] on [str] patterns use the same set. *)
Definition is_space (c : N) : bool :=
  ((9 <=? c) && (c <=? 13)) || ((28 <=? c) && (c <=? 32))
  || (c =? 133) || (c =? 160) || (c =? 5760)
  || ((8192 <=? c) && (c <=? 8202))
  || (c =? 8232) || (c =? 8233) || (c =? 8239) || (c =? 8287) || (c =? 12288).

(** [s.strip()] *)
Definition strip (s : str) : str := rstrip_by is_space (lstrip_by is_space s).

(** [s.replace(old, new)] for a non-empty [old]: the occurrences of [old] are
    replaced left to right, without overlap. [skip] counts the characters of
    an occurrence still to be dropped. *)
Fixpoint replace_from (old new : str) (skip : nat) (s : str) : str :=
  match s with
  | [] => []
  | c :: s' =>
      match skip with
      | S k => replace_from old new k s'
      | O =>
          if startswith s old
          then new ++ replace_from old new (Nat.pred (List.length old)) s'
          else c :: replace_from old new 0 s'
      end
  end.

Definition replace (old new : str) (s : str) : str := replace_from old new 0 s.

(** [s.rfind(c) + 1] for a single character [c]: the index just after the
    last [c], 0 when there is none. *)
Fixpoint after_last (c : N) (s : str) (i : nat) (found : nat) : nat :=
  match s with
  | [] => found
  | x :: s' => after_last c s' (S i) (if x =? c then S i else found)
  end.

(** [s.count("\n")] *)
Definition count_newlines (s : str) : nat :=
  List.length (filter (N.eqb LF) s).

(** [seq[start:end]] for any two integers, as Python clamps them. *)
Definition slice_index (len : nat) (i : Z) : nat :=
  let l := Z.of_nat len in
  Z.to_nat (Z.min l (Z.max 0 (if (i <? 0)%Z then (i + l)%Z else i))).

Definition slice {A} (l : list A) (start stop : Z) : list A :=
  let a := slice_index (List.length l) start in
  let b := slice_index (List.length l) stop in
  firstn (b - a) (skipn a l).

(** [sorted(l)] on a list of [str]: insertion in Python's order. *)
Fixpoint insert_sorted (x : str) (l : list str) : list str :=
  match l with
  | [] => [x]
  | y :: l' => if str_leb x y then x :: l else y :: insert_sorted x l'
  end.

Definition sorted (l : list str) : list str :=
  fold_right insert_sorted [] l.

(** ** [os.path] (posixpath) *)

(** [os.path.join(a, b)] *)
Definition os_path_join (a b : str) : str :=
  if startswith b [SLASH] then b
  else match a with
       | [] => b
       | _ => if N.eqb (last a 0) SLASH then a ++ b else a ++ SLASH :: b
       end.

(** [os.path.basename(p)]: what follows the last slash. *)
Definition os_path_basename (p : str) : str :=
  skipn (after_last SLASH p 0 0) p.

(** [os.path.splitext(p)]: the extension starts at the last dot of the last
    component, unless only dots precede it there. *)
Definition os_path_splitext (p : str) : str * str :=
  let sep := after_last SLASH p 0 0 in
  let dot := after_last DOT p 0 0 in
  if (sep <? dot)%nat
  then
    let stem := firstn (dot - 1 - sep) (skipn sep p) in
    if forallb (N.eqb DOT) stem then (p, [])
    else (firstn (dot - 1) p, skipn (dot - 1) p)
  else (p, []).

(** ** Exceptions *)

(** The exception classes the helpers can meet; all derive from
    [Exception], so [except Exception] catches each of them. *)
Inductive exn_class :=
| TypeError
| FileNotFoundError
| FileExistsError
| IsADirectoryError
| PermissionError
| UnicodeDecodeError
| TimeoutExpired.

Record exn := { exn_kind : exn_class; exn_msg : str }.

(** [str(e)] *)
Definition str_of_exn (e : exn) : str := exn_msg e.

Inductive result (A : Type) :=
| Ret (a : A)
| Raise (e : exn).
Arguments Ret {A} a.
Arguments Raise {A} e.

Definition rbind {A B} (m : result A) (k : A -> result B) : result B :=
  match m with
  | Ret a => k a
  | Raise e => Raise e
  end.

(** ** The file system *)

(** A directory lists its entries in the order [os.scandir] gives them. A
    file holds its content, or [None] when it exists but cannot be opened
    for reading. *)
#[warnings="-register-all"]
Inductive node :=
| File (content : option bytes)
| Dir (entries : list (str * node)).

Fixpoint assoc {A} (k : str) (l : list (str * A)) : option A :=
  match l with
  | [] => None
  | (k', v) :: l' => if str_eqb k k' then Some v else assoc k l'
  end.

Fixpoint assoc_set {A} (k : str) (v : A) (l : list (str * A)) : list (str * A) :=
  match l with
  | [] => [(k, v)]
  | (k', v') :: l' => if str_eqb k k' then (k, v) :: l' else (k', v') :: assoc_set k v l'
  end.

Definition assoc_del {A} (k : str) (l : list (str * A)) : list (str * A) :=
  filter (fun e => negb (str_eqb k (fst e))) l.

(** [p.split("/")] *)
Fixpoint split_slash (p : str) : list str :=
  match p with
  | [] => [[]]
  | c :: p' =>
      if c =? SLASH then [] :: split_slash p'
      else match split_slash p' with
           | [] => [[c]]
           | w :: ws => (c :: w) :: ws
           end
  end.

(** The components the kernel follows for a path: empty components and [.]
    are skipped. Every path is resolved from the root of the modelled tree
    (the working directory of the process is that root); there are no
    symbolic links and no [..] entries. *)
Definition path_components (p : str) : list str :=
  filter (fun c => negb (str_eqb c []) && negb (str_eqb c [DOT])) (split_slash p).

Fixpoint fs_lookup (n : node) (comps : list str) : option node :=
  match comps with
  | [] => Some n
  | c :: cs =>
      match n with
      | Dir es => match assoc c es with
                  | Some m => fs_lookup m cs
                  | None => None
                  end
      | File _ => None
      end
  end.

(** The tree with the entry at [comps] created or replaced by [new]; [None]
    when a proper ancestor is missing or is a file. *)
Fixpoint fs_put (n : node) (comps : list str) (new : node) : option node :=
  match comps with
  | [] => Some new
  | c :: cs =>
      match n with
      | Dir es =>
          let child :=
            match cs with
            | [] => Some new
            | _ :: _ => match assoc c es with
                        | Some m => fs_put m cs new
                        | None => None
                        end
            end in
          match child with
          | Some m' => Some (Dir (assoc_set c m' es))
          | None => None
          end
      | File _ => None
      end
  end.

(** The tree without the entry at [comps] (and all below it). *)
Fixpoint fs_del (n : node) (comps : list str) : node :=
  match comps with
  | [] => n
  | c :: cs =>
      match n with
      | Dir es =>
          match cs with
          | [] => Dir (assoc_del c es)
          | _ :: _ => match assoc c es with
                      | Some m => Dir (assoc_set c (fs_del m cs) es)
                      | None => n
                      end
          end
      | File _ => n
      end
  end.

Definition fs_resolve (fs : node) (p : str) : option node :=
  fs_lookup fs (path_components p).

(** [os.path.exists(p)] *)
Definition os_path_exists (fs : node) (p : str) : bool :=
  match fs_resolve fs p with Some _ => true | None => false end.

(** [open(p, "rb").read()] *)
Definition read_bytes (fs : node) (p : str) : result bytes :=
  match fs_resolve fs p with
  | Some (File (Some b)) => Ret b
  | Some (File None) => Raise {| exn_kind := PermissionError; exn_msg := lit "Permission denied" |}
  | Some (Dir _) => Raise {| exn_kind := IsADirectoryError; exn_msg := lit "Is a directory" |}
  | None => Raise {| exn_kind := FileNotFoundError; exn_msg := lit "No such file or directory" |}
  end.

(** ** UTF-8 and text mode *)

Definition is_cont (b : N) : bool := (128 <=? b) && (b <=? 191).

(** The second byte a three-byte or four-byte lead admits (Unicode table
    3-7): no overlong form, no surrogate, nothing above U+10FFFF. *)
Definition second_ok (b0 b1 : N) : bool :=
  if b0 =? 224 then (160 <=? b1) && (b1 <=? 191)
  else if b0 =? 237 then (128 <=? b1) && (b1 <=? 159)
  else if b0 =? 240 then (144 <=? b1) && (b1 <=? 191)
  else if b0 =? 244 then (128 <=? b1) && (b1 <=? 143)
  else is_cont b1.

(** The decoder's pass over the bytes: [Some c] for a well-formed sequence,
    [None] for an ill-formed one, which ends before the first byte that
    cannot continue it (or with the input). *)
Fixpoint utf8_scan (bs : bytes) : list (option N) :=
  match bs with
  | [] => []
  | x0 :: r0 =>
      let b0 := Byte.to_N x0 in
      if b0 <? 128 then Some b0 :: utf8_scan r0
      else if (b0 <? 194) || (244 <? b0) then None :: utf8_scan r0
      else
        match r0 with
        | [] => [None]
        | x1 :: r1 =>
            let b1 := Byte.to_N x1 in
            if b0 <? 224 then
              if is_cont b1
              then Some ((b0 - 192) * 64 + (b1 - 128)) :: utf8_scan r1
              else None :: utf8_scan r0
            else if negb (second_ok b0 b1) then None :: utf8_scan r0
            else
              match r1 with
              | [] => [None]
              | x2 :: r2 =>
                  let b2 := Byte.to_N x2 in
                  if negb (is_cont b2) then None :: utf8_scan r1
                  else if b0 <? 240 then
                    Some ((b0 - 224) * 4096 + (b1 - 128) * 64 + (b2 - 128)) :: utf8_scan r2
                  else
                    match r2 with
                    | [] => [None]
                    | x3 :: r3 =>
                        let b3 := Byte.to_N x3 in
                        if is_cont b3
                        then Some ((b0 - 240) * 262144 + (b1 - 128) * 4096
                                   + (b2 - 128) * 64 + (b3 - 128)) :: utf8_scan r3
                        else None :: utf8_scan r2
                    end
              end
        end
  end.

(** [b.decode('utf-8', errors='ignore')]: ill-formed sequences are dropped. *)
Definition decode_ignore (b : bytes) : str :=
  flat_map (fun o => match o with Some c => [c] | None => [] end) (utf8_scan b).

(** [b.decode('utf-8')]: an ill-formed sequence raises [UnicodeDecodeError]. *)
Fixpoint all_some (l : list (option N)) : option str :=
  match l with
  | [] => Some []
  | Some c :: l' => match all_some l' with Some s => Some (c :: s) | None => None end
  | None :: _ => None
  end.

Definition decode_strict (b : bytes) : result str :=
  match all_some (utf8_scan b) with
  | Some s => Ret s
  | None => Raise {| exn_kind := UnicodeDecodeError;
                     exn_msg := lit "'utf-8' codec can't decode bytes" |}
  end.

(** Text mode with the default [newline=None]: on input, ["\r\n"] and a lone
    ["\r"] are read as ["\n"]. *)
Fixpoint universal_newlines (t : str) : str :=
  match t with
  | [] => []
  | c :: t' =>
      if c =? CR then
        LF :: match t' with
              | [] => []
              | d :: t'' => if d =? LF then universal_newlines t'' else universal_newlines t'
              end
      else c :: universal_newlines t'
  end.

(** [open(p, "r", encoding="utf-8").read()] *)
Definition read_text (fs : node) (p : str) : result str :=
  rbind (read_bytes fs p) (fun b =>
  rbind (decode_strict b) (fun t =>
  Ret (universal_newlines t))).

(** [fh.readlines()] on the text read: each line keeps its ["\n"]; a last
    line without one is a line too. *)
Fixpoint split_lines (t : str) : list str :=
  match t with
  | [] => []
  | c :: t' =>
      if c =? LF then [c] :: split_lines t'
      else match split_lines t' with
           | [] => [[c]]
           | l :: ls => (c :: l) :: ls
           end
  end.

Definition readlines (fs : node) (p : str) : result (list str) :=
  rbind (read_text fs p) (fun t => Ret (split_lines t)).

(** ** The [re] module, for patterns that are a sequence of items *)

(** The three patterns of the analyzer are sequences of: [^] (under
    [re.MULTILINE]), literal text, a character class under a greedy
    quantifier, and the parentheses of group 1. *)
Inductive item :=
| Bol
| Lit (s : str)
| Rep (cls : N -> bool) (lo : nat) (hi : option nat)
| GroupOpen
| GroupClose.

(** Where group 1 opened and closed, as offsets from the start of the match. *)
Definition group := (nat * nat)%type.

(** [^] under [re.MULTILINE]: at the start of the text and just after each
    ["\n"]. [prev] is the character before the current position. *)
Definition at_bol (prev : option N) : bool :=
  match prev with
  | None => true
  | Some c => c =? LF
  end.

Definition below (count : nat) (hi : option nat) : bool :=
  match hi with
  | None => true
  | Some h => (count <? h)%nat
  end.

(** A greedy quantifier: take one more character of the class when there is
    one; when the rest of the pattern then fails (or there is none), go on
    from here, provided [lo] were taken. *)
Fixpoint rep {R} (cls : N -> bool) (lo : nat) (hi : option nat)
    (k : option N -> str -> nat -> option R)
    (count : nat) (prev : option N) (rest : str) (off : nat) : option R :=
  let stop := if (lo <=? count)%nat then k prev rest off else None in
  match rest with
  | c :: rest' =>
      if cls c && below count hi
      then match rep cls lo hi k (S count) (Some c) rest' (S off) with
           | Some r => Some r
           | None => stop
           end
      else stop
  | [] => stop
  end.

(** The pattern from the current position: the offset where the match ends,
    with group 1. Alternatives are tried in the order of a backtracking
    matcher. *)
Fixpoint match_here (its : list item) (prev : option N) (rest : str)
    (off : nat) (g : group) : option (nat * group) :=
  match its with
  | [] => Some (off, g)
  | Bol :: its' =>
      if at_bol prev then match_here its' prev rest off g else None
  | Lit s :: its' =>
      match strip_prefix s rest with
      | Some rest' =>
          match_here its' (match rev s with c :: _ => Some c | [] => prev end)
                     rest' (off + List.length s) g
      | None => None
      end
  | Rep cls lo hi :: its' =>
      rep cls lo hi (fun prev' rest' off' => match_here its' prev' rest' off' g)
          0 prev rest off
  | GroupOpen :: its' => match_here its' prev rest off (off, snd g)
  | GroupClose :: its' => match_here its' prev rest off (fst g, off)
  end.

(** A match object: [m.start()], [m.end()], [m.group(1)]. *)
Record re_match := { m_start : nat; m_end : nat; m_group1 : str }.

(** [pattern.finditer(text)]: the leftmost match from each position where
    the search resumes, which is the end of the previous match. [skip]
    counts the positions still inside the previous match. *)
Fixpoint finditer_from (re : list item) (prev : option N) (rest : str)
    (pos : nat) (skip : nat) : list re_match :=
  let found :=
    match skip with
    | O => match_here re prev rest 0 (0, 0)%nat
    | S _ => None
    end in
  match rest with
  | [] =>
      match found with
      | Some (len, (go, gc)) =>
          [{| m_start := pos; m_end := pos + len;
              m_group1 := firstn (gc - go) (skipn go rest) |}]
      | None => []
      end
  | c :: rest' =>
      match found with
      | Some (len, (go, gc)) =>
          {| m_start := pos; m_end := pos + len;
             m_group1 := firstn (gc - go) (skipn go rest) |}
          :: finditer_from re (Some c) rest' (S pos) (Nat.pred len)
      | None => finditer_from re (Some c) rest' (S pos) (Nat.pred skip)
      end
  end.

Definition finditer (re : list item) (text : str) : list re_match :=
  finditer_from re None text 0 0.

Definition in_range (lo hi : string) (c : N) : bool :=
  match lit lo, lit hi with
  | [a], [b] => (a <=? c) && (c <=? b)
  | _, _ => false
  end.

(** [[A-Za-z0-9_]] *)
Definition is_word (c : N) : bool :=
  in_range "A" "Z" c || in_range "a" "z" c || in_range "0" "9" c || char_in c (lit "_").

(** [[A-Za-z_]] *)
Definition is_word_start (c : N) : bool :=
  in_range "A" "Z" c || in_range "a" "z" c || char_in c (lit "_").

Definition is_digit (c : N) : bool := in_range "0" "9" c.

Definition star (cls : N -> bool) : item := Rep cls 0 None.
Definition plus (cls : N -> bool) : item := Rep cls 1 None.
Definition opt (cls : N -> bool) : item := Rep cls 0 (Some 1%nat).
Definition one (cls : N -> bool) : item := Rep cls 1 (Some 1%nat).

(** [func_pattern], from the raw string "^\s*def\s+([A-Za-z0-9_]+)\s*\(" *)
Definition func_pattern : list item :=
  [Bol; star is_space; Lit (lit "def"); plus is_space;
   GroupOpen; plus is_word; GroupClose; star is_space; Lit (lit "(")].

(** [class_pattern], from the raw string "^\s*class\s+([A-Za-z0-9_]+)\s*[\(:]?" *)
Definition class_pattern : list item :=
  [Bol; star is_space; Lit (lit "class"); plus is_space;
   GroupOpen; plus is_word; GroupClose; star is_space;
   opt (fun c => char_in c (lit "(:"))].

(** [call_pattern]: group 1 is [[A-Za-z_]] followed by [[A-Za-z0-9_]*]; after
    the group come [\s*] and [\(]. *)
Definition call_pattern : list item :=
  [GroupOpen; one is_word_start; star is_word; GroupClose;
   star is_space; Lit (lit "(")].

(** ** [parser_utilis.py] *)

Inductive symbol_type := function | class.

(** [{"type": ..., "name": ..., "lineno": ...}] *)
Record symbol := { sym_type : symbol_type; sym_name : str; sym_lineno : nat }.

(** [{"call": ..., "lineno": ...}] *)
Record call := { call_name : str; call_lineno : nat }.

Record summary := {
  file : str;
  lang : str;
  num_symbols : nat;
  num_calls : nat;
  top_symbols : list symbol
}.

(** [{"ok": True, "symbols", "calls", "summary"}] or
    [{"ok": False, "error"}] *)
Inductive parse_result :=
| ParseOk (symbols : list symbol) (calls : list call) (summ : summary)
| ParseFail (error : str).

Definition _read_file_bytes (fs : node) (path : str) : option bytes :=
  match read_bytes fs path with
  | Ret b => Some b
  | Raise _ => None
  end.

(** [text[:m.start()].count("\n") + 1] *)
Definition lineno_of (text : str) (m : re_match) : nat :=
  (count_newlines (firstn (m_start m) text) + 1)%nat.

Section Analyzer.

(** [str.lower], Python's lowercasing of a [str]. *)
Variable lower : str -> str.

(** [parse_with_treesitter(file_path)]. Decoding with [errors='ignore']
    raises nothing, so the handler of lines 30 and 31 has no case here. *)
Definition parse_with_treesitter (fs : node) (file_path : str) : parse_result :=
  let ext := lower (snd (os_path_splitext file_path)) in
  match _read_file_bytes fs file_path with
  | None => ParseFail (lit "cannot read file")
  | Some content =>
      let text := decode_ignore content in
      let symbols :=
        map (fun fm => {| sym_type := function; sym_name := m_group1 fm;
                          sym_lineno := lineno_of text fm |})
            (finditer func_pattern text)
        ++ map (fun cm => {| sym_type := class; sym_name := m_group1 cm;
                             sym_lineno := lineno_of text cm |})
               (finditer class_pattern text) in
      let calls :=
        map (fun cm => {| call_name := m_group1 cm; call_lineno := lineno_of text cm |})
            (finditer call_pattern text) in
      let summ :=
        {| file := os_path_basename file_path;
           lang := match replace [DOT] [] ext with
                   | [] => lit "txt"
                   | l => l
                   end;
           num_symbols := List.length symbols;
           num_calls := List.length calls;
           top_symbols := slice symbols 0 10 |} in
      ParseOk symbols calls summ
  end.

End Analyzer.

(** [extract_code_snippet(file_path, lineno, context)] *)
Definition extract_code_snippet (fs : node) (file_path : str) (lineno context : Z) : str :=
  match readlines fs file_path with
  | Ret lines =>
      let start := Z.max 0 (lineno - context - 1) in
      let stop := Z.min (Z.of_nat (List.length lines)) (lineno + context) in
      List.concat (slice lines start stop)
  | Raise _ => []
  end.

(** ** [repo_utils.py] *)

(** *** The world [clone_repo] runs in *)

(** A Python value where a [str] or [None] can stand. *)
Inductive pyval :=
| PyNone
| PyStr (s : str).

(** How [subprocess.run(["git", "clone", ...], timeout=180)] ends: the
    process exits with a return code and its captured standard error; or it
    is killed at the timeout and [TimeoutExpired] is raised; or it could not
    be started (no [git] on the PATH) and the exception of [Popen] is
    raised. *)
Inductive run_outcome :=
| Completed (returncode : Z) (stderr : str)
| TimedOut
| NotStarted (e : exn).

Record environment := {
  tempdir : str;                      (* [tempfile.gettempdir()] *)
  fresh_name : str;                   (* the random part [mkdtemp] picks *)
  git_outcome : run_outcome;
  git_leaves : list (str * node);     (* what a started [git] leaves in the target *)
  rmtree_left : option (list (str * node))
                                      (* what [shutil.rmtree] cannot remove; [None]
                                         when the whole tree goes *)
}.

(** Code that reads and changes the file system and may raise: the file
    system an exception leaves behind is the one reached when it was
    raised. *)
Definition io (A : Type) := node -> result A * node.

Definition ret {A} (a : A) : io A := fun fs => (Ret a, fs).

Definition bind {A B} (m : io A) (k : A -> io B) : io B :=
  fun fs =>
    match m fs with
    | (Ret a, fs') => k a fs'
    | (Raise e, fs') => (Raise e, fs')
    end.

(** A computation that only reads the file system. *)
Definition reading {A} (f : node -> result A) : io A := fun fs => (f fs, fs).

(** [try: m except Exception as e: h(e)] *)
Definition try_except {A} (m : io A) (h : exn -> io A) : io A :=
  fun fs =>
    match m fs with
    | (Ret a, fs') => (Ret a, fs')
    | (Raise e, fs') => h e fs'
    end.

Declare Scope io_scope.
Delimit Scope io_scope with io.
Notation "x <- m ;; k" := (bind m (fun x => k))
  (at level 61, m at next level, right associativity) : io_scope.
Notation "m ;; k" := (bind m (fun _ => k))
  (at level 61, right associativity) : io_scope.

(** [str(n)] for an [int] *)
Definition str_of_int (n : Z) : str :=
  lit (DecimalString.NilZero.string_of_int (Z.to_int n)).

(** [tempfile.mkdtemp(prefix=...)]: a new directory under the temporary
    directory. *)
Definition tempfile_mkdtemp (env : environment) (prefix : str) : io str :=
  fun fs =>
    let path := os_path_join (tempdir env) (prefix ++ fresh_name env) in
    match fs_resolve fs path with
    | Some _ =>
        (Raise {| exn_kind := FileExistsError;
                  exn_msg := lit "No usable temporary directory name found" |}, fs)
    | None =>
        match fs_put fs (path_components path) (Dir []) with
        | Some fs' => (Ret path, fs')
        | None =>
            (Raise {| exn_kind := FileNotFoundError;
                      exn_msg := lit "No such file or directory" |}, fs)
        end
    end.

(** [subprocess.run(["git", "clone", "--depth", str(depth), url, tmp],
    capture_output=True, text=True, timeout=180)]: the return code and the
    standard error of the completed process. *)
Definition subprocess_run_git_clone (env : environment) (depth : Z) (url tmp : str)
  : io (Z * str) :=
  fun fs =>
    let started :=
      match fs_put fs (path_components tmp) (Dir (git_leaves env)) with
      | Some fs' => fs'
      | None => fs
      end in
    match git_outcome env with
    | Completed rc err => (Ret (rc, err), started)
    | TimedOut =>
        (Raise {| exn_kind := TimeoutExpired;
                  exn_msg := lit "Command '['git', 'clone', '--depth', '" ++ str_of_int depth
                             ++ lit "', '" ++ url ++ lit "', '" ++ tmp
                             ++ lit "']' timed out after 180 seconds" |}, started)
    | NotStarted e => (Raise e, fs)
    end.

(** [shutil.rmtree(path, ignore_errors=True)]: the tree is removed; or, when
    the removal fails on the way, the error is swallowed, nothing is raised
    and the directory stays with what could not be removed. *)
Definition shutil_rmtree (env : environment) (path : str) : io unit :=
  fun fs =>
    match rmtree_left env with
    | None => (Ret tt, fs_del fs (path_components path))
    | Some kept =>
        (Ret tt,
         match fs_put fs (path_components path) (Dir kept) with
         | Some fs' => fs'
         | None => fs
         end)
    end.

(** *** [generate_file_tree] *)

Definition ignore : list str :=
  [lit ".git"; lit "node_modules"; lit "__pycache__"; lit ".venv"; lit ".env"].

Definition is_dir (n : node) : bool :=
  match n with Dir _ => true | File _ => false end.

(** [os.walk(top)], top-down: for each directory the triple
    [(root, dirs, files)], then the walk of the sub-directories. The loop
    body assigns [dirs[:]] before the walk goes on, and only the names it
    keeps are entered: [keep] is that filter. A [top] that is not a
    directory gives no triple. *)
Fixpoint os_walk (keep : str -> bool) (top : str) (n : node)
  : list (str * list str * list str) :=
  match n with
  | File _ => []
  | Dir es =>
      (top,
       map fst (filter (fun e => is_dir (snd e)) es),
       map fst (filter (fun e => negb (is_dir (snd e))) es))
      :: flat_map (fun e : str * node =>
                     let (d, m) := e in
                     if keep d then os_walk keep (os_path_join top d) m else [])
                  es
  end.

(** [os.path.realpath(root, path)]: [realpath(filename, *, strict=False)]
    takes one positional argument, so the call with two raises
    [TypeError]. *)
Definition os_path_realpath_2 (filename extra : str) : result str :=
  Raise {| exn_kind := TypeError;
           exn_msg := lit "realpath() takes 1 positional argument but 2 were given" |}.

(** A [for] loop whose body may raise. *)
Fixpoint for_each {A S} (l : list A) (body : S -> A -> result S) (s : S) : result S :=
  match l with
  | [] => Ret s
  | a :: l' => rbind (body s a) (for_each l' body)
  end.

(** The body of the loop over [os.walk(path)], after the pruning of
    [dirs]. *)
Definition walk_body (path : str) (tree : list str) (t : str * list str * list str)
  : result (list str) :=
  let '(root, _, files) := t in
  rbind (os_path_realpath_2 root path) (fun rel_root =>
  let rel_root := if str_eqb rel_root (lit ".") then [] else rel_root in
  Ret (tree ++ map (fun f => match rel_root with
                             | [] => f
                             | _ :: _ => os_path_join rel_root f
                             end)
                   (filter (fun f => negb (startswith f (lit "."))) files))).

Definition generate_file_tree (fs : node) (path : str) : result (list str) :=
  let triples :=
    match fs_resolve fs path with
    | Some n => os_walk (fun d => negb (existsb (str_eqb d) ignore)) path n
    | None => []
    end in
  rbind (for_each triples (walk_body path) []) (fun tree => Ret (sorted tree)).

(** *** [read_readme] *)

Definition candidate : list str :=
  [lit "README.md"; lit "readme.md"; lit "README.rst"; lit "README"].

Fixpoint read_readme_from (fs : node) (path : str) (cs : list str) : pyval :=
  match cs with
  | [] => PyStr []
  | c :: cs' =>
      let p := os_path_join path c in
      if os_path_exists fs p
      then match read_text fs p with
           | Ret s => PyStr s
           | Raise _ => PyStr []
           end
      else read_readme_from fs path cs'
  end.

Definition read_readme (fs : node) (path : str) : pyval :=
  read_readme_from fs path candidate.

(** *** [clone_repo] *)

(** [{"ok": True, "path", "name", "file_tree", "readme"}] or
    [{"ok": False, "error"}] *)
Inductive clone_result :=
| CloneOk (path name : str) (file_tree : list str) (readme : pyval)
| CloneFail (error : str).

(** Line 17: the name of the repository, from the URL. *)
Definition repo_name (url : str) : str :=
  replace (lit ".git") [] (os_path_basename (rstrip (lit "/") url)).

Local Open Scope io_scope.

Definition clone_repo (env : environment) (url : str) (depth : Z) : io clone_result :=
  try_except
    (tmp <- tempfile_mkdtemp env (lit "repo_") ;;
     proc <- subprocess_run_git_clone env depth url tmp ;;
     if negb (fst proc =? 0)%Z
     then shutil_rmtree env tmp ;; ret (CloneFail (strip (snd proc)))
     else
       let name := repo_name url in
       file_tree <- reading (fun fs => generate_file_tree fs tmp) ;;
       readme <- reading (fun fs => Ret (read_readme fs tmp)) ;;
       ret (CloneOk tmp name file_tree readme))
    (fun e => ret (CloneFail (str_of_exn e))).

Local Close Scope io_scope.

(** * Sample inputs, and the claims' reading of a snippet *)

(** A machine with an empty [/tmp], on which [git] hangs. *)
Definition hanging_env : environment :=
  {| tempdir := lit "/tmp"; fresh_name := lit "k3x9_q2a";
     git_outcome := TimedOut; git_leaves := [(lit ".git", Dir [])];
     rmtree_left := None |}.

Definition empty_tmp : node := Dir [(lit "tmp", Dir [])].

(** A checkout with a hidden file, an ignored directory and a package. *)
Definition sample_tree : node :=
  Dir [(lit "repo",
        Dir [(lit "b.py", File (Some (blit "x = 1")));
             (lit ".gitignore", File (Some (blit "*.pyc")));
             (lit ".git", Dir [(lit "HEAD", File (Some (blit "ref")))]);
             (lit "src", Dir [(lit "a.py", File (Some (blit "y = 2")))])])].

(** A checkout without any of the candidate files. *)
Definition no_readme_tree : node :=
  Dir [(lit "repo", Dir [(lit "main.py", File (Some (blit "print(1)")))])].

(** The file of scenario A: a function on line 1, a class on line 4. *)
Definition scenario_a : bytes :=
  blit "def foo(x):" ++ [x0a] ++ blit "    pass" ++ [x0a] ++ [x0a]
  ++ blit "class Bar:" ++ [x0a] ++ blit "    pass" ++ [x0a].

Definition scenario_a_fs : node := Dir [(lit "a.py", File (Some scenario_a))].

Definition scenario_a_symbols : list symbol :=
  [ {| sym_type := function; sym_name := lit "foo"; sym_lineno := 1 |};
    {| sym_type := class; sym_name := lit "Bar"; sym_lineno := 3 |} ].

Definition scenario_a_calls : list call :=
  [ {| call_name := lit "foo"; call_lineno := 1 |} ].

Definition scenario_a_summary : summary :=
  {| file := lit "a.py"; lang := lit "py"; num_symbols := 2; num_calls := 1;
     top_symbols := scenario_a_symbols |}.

(** The file of one line [def 0name(]. *)
Definition digit_def_fs : node := Dir [(lit "d.py", File (Some (blit "def 0name(")))].

(** The claim's reading of a text: its lines with the terminators the file
    has, ["\n"], ["\r\n"] or ["\r"]. *)
Fixpoint lines_with_original_terminators (t : str) : list str :=
  match t with
  | [] => []
  | c :: t' =>
      if c =? LF then [c] :: lines_with_original_terminators t'
      else if c =? CR then
        match t' with
        | [] => [[c]]
        | d :: t'' =>
            if d =? LF then [c; d] :: lines_with_original_terminators t''
            else [c] :: lines_with_original_terminators t'
        end
      else match lines_with_original_terminators t' with
           | [] => [[c]]
           | l :: ls => (c :: l) :: ls
           end
  end.

(** The lines of the window from [lo] (included) to [hi] (excluded). *)
Definition window {A} (lines : list A) (lo hi : nat) : list A :=
  firstn (hi - lo) (skipn lo lines).

(** The snippet as the claim states it, for the decoded text of a file. *)
Definition snippet_as_claimed (text : str) (L C : Z) : str :=
  let lines := lines_with_original_terminators text in
  List.concat (window lines (Z.to_nat (Z.max 0 (L - C - 1)))
                      (Z.to_nat (Z.min (Z.of_nat (List.length lines)) (L + C)))).

(** A file of two lines that end with ["\r\n"]. *)
Definition crlf_file : bytes := blit "a" ++ [x0d; x0a] ++ blit "b" ++ [x0d; x0a].

Definition crlf_fs : node := Dir [(lit "f.txt", File (Some crlf_file))].

(** The lines [readlines] gives: a line is not empty and has no ["\n"]
    before its end; every line but the last ends with ["\n"]. *)
Inductive text_lines : list str -> Prop :=
| tl_nil : text_lines []
| tl_last l : l <> [] -> ~ In LF l -> text_lines [l]
| tl_cons body ls : ~ In LF body -> text_lines ls -> text_lines ((body ++ [LF]) :: ls).

(** Two paths part ways: at some depth their components differ, so that
    neither is the other or leads to it. *)
Fixpoint diverges (p q : list str) : bool :=
  match p, q with
  | a :: p', b :: q' => if str_eqb a b then diverges p' q' else true
  | _, _ => false
  end.

(** A machine on which [git] exits with the code 128 and a message. *)
Definition refusing_env : environment :=
  {| tempdir := lit "/tmp"; fresh_name := lit "k3x9_q2a";
     git_outcome := Completed 128 (lit "fatal: repository not found" ++ [LF]);
     git_leaves := []; rmtree_left := None |}.


(** A machine on which [git] clones a repository of one file. *)
Definition cloning_env : environment :=
  {| tempdir := lit "/tmp"; fresh_name := lit "k3x9_q2a";
     git_outcome := Completed 0 (lit "Cloning into '/tmp/repo_k3x9_q2a'..." ++ [LF]);
     git_leaves := [(lit "README.md", File (Some (blit "# demo")))];
     rmtree_left := None |}.

(** A file system with an empty [/tmp] and a file elsewhere. *)
Definition home_fs : node :=
  Dir [(lit "tmp", Dir []);
       (lit "home", Dir [(lit "notes.txt", File (Some (blit "keep")))])].

(** A machine on which [git] is killed by a signal before it wrote a
    message. *)
Definition silent_env : environment :=
  {| tempdir := lit "/tmp"; fresh_name := lit "k3x9_q2a";
     git_outcome := Completed (-9) [LF]; git_leaves := []; rmtree_left := None |}.

(** * Properties *)

(** ** Strings and the file system *)

Lemma str_eqb_refl (s : str) : str_eqb s s = true.
Proof.
  induction s as [|c s IH]; simpl; [reflexivity|].
  now rewrite N.eqb_refl, IH.
Qed.

Lemma str_eqb_eq (a b : str) : str_eqb a b = true <-> a = b.
Proof.
  split; [|intros ->; apply str_eqb_refl].
  revert b; induction a as [|x a IH]; intros [|y b]; simpl; try discriminate; auto.
  intros H; apply andb_prop in H as [Hx Hr].
  apply N.eqb_eq in Hx; subst; f_equal; auto.
Qed.

Lemma assoc_set_same {A} (k : str) (v : A) l : assoc k (assoc_set k v l) = Some v.
Proof.
  induction l as [|[k' v'] l IH]; simpl.
  - now rewrite str_eqb_refl.
  - destruct (str_eqb k k') eqn:E; simpl.
    + now rewrite str_eqb_refl.
    + now rewrite E.
Qed.


(** What was put at a path is found there. *)
Lemma fs_put_lookup comps : forall n new n',
  fs_put n comps new = Some n' -> fs_lookup n' comps = Some new.
Proof.
  induction comps as [|c cs IH]; intros n new n' H; simpl in *.
  - congruence.
  - destruct n as [b|es]; [discriminate|].
    destruct cs as [|c' cs'].
    + injection H as <-. simpl. now rewrite assoc_set_same.
    + destruct (assoc c es) as [m|]; [|discriminate].
      destruct (fs_put m (c' :: cs') new) as [m'|] eqn:E; [|discriminate].
      injection H as <-.
      change (fs_lookup (Dir (assoc_set c m' es)) (c :: c' :: cs'))
        with (match assoc c (assoc_set c m' es) with
              | Some m0 => fs_lookup m0 (c' :: cs')
              | None => None
              end).
      rewrite assoc_set_same. eapply IH; eassumption.
Qed.


(** An entry that exists can be replaced. *)
Lemma fs_put_existing comps : forall n m new,
  fs_lookup n comps = Some m -> exists n', fs_put n comps new = Some n'.
Proof.
  induction comps as [|c cs IH]; intros n m new H; simpl in *; [eauto|].
  destruct n as [b|es]; [discriminate|].
  destruct (assoc c es) as [m0|] eqn:E; [|discriminate].
  destruct cs as [|c' cs']; [eauto|].
  destruct (IH m0 m new H) as [m' Hm']. rewrite Hm'. eauto.
Qed.

(** ** [tempfile.mkdtemp] and the [git] process *)

(** A successful [mkdtemp] returns a path that did not exist and is now an
    empty directory. *)
Lemma mkdtemp_creates env prefix fs tmp fs1 :
  tempfile_mkdtemp env prefix fs = (Ret tmp, fs1) ->
  os_path_exists fs tmp = false /\ fs_resolve fs1 tmp = Some (Dir []).
Proof.
  unfold tempfile_mkdtemp, os_path_exists.
  set (path := os_path_join _ _).
  destruct (fs_resolve fs path) eqn:E; [discriminate|].
  destruct (fs_put fs (path_components path) (Dir [])) as [fs'|] eqn:P; [|discriminate].
  intros H; injection H as <- <-. rewrite E. split; [reflexivity|].
  unfold fs_resolve. eapply fs_put_lookup; eassumption.
Qed.

(** After the [git] process was started on an existing directory, the
    directory is still there. *)
Lemma git_started_keeps_dir fs tmp leaves es :
  fs_resolve fs tmp = Some (Dir es) ->
  exists es',
    fs_resolve (match fs_put fs (path_components tmp) (Dir leaves) with
                | Some fs' => fs'
                | None => fs
                end) tmp = Some (Dir es').
Proof.
  intros H. destruct (fs_put fs (path_components tmp) (Dir leaves)) as [fs'|] eqn:P.
  - exists leaves. unfold fs_resolve. eapply fs_put_lookup; eassumption.
  - exists es. assumption.
Qed.

(** ** [generate_file_tree] *)

Lemma generate_file_tree_dir fs path es :
  fs_resolve fs path = Some (Dir es) ->
  generate_file_tree fs path
  = Raise {| exn_kind := TypeError;
             exn_msg := lit "realpath() takes 1 positional argument but 2 were given" |}.
Proof.
  intros H. unfold generate_file_tree. rewrite H. reflexivity.
Qed.

(** ** [clone_repo] *)

Ltac run_clone :=
  unfold clone_repo, try_except, bind, subprocess_run_git_clone, shutil_rmtree,
    reading, ret.


(** [clone_repo] never raises, and it never returns the record of a
    success: when the clone itself succeeds, [generate_file_tree] raises on
    the new directory and the handler turns that into a failure. *)
Lemma clone_repo_never_ok env url depth fs :
  exists error fs', clone_repo env url depth fs = (Ret (CloneFail error), fs').
Proof.
  run_clone.
  destruct (tempfile_mkdtemp env (lit "repo_") fs) as [[tmp|e] fs1] eqn:Hmk; [|eauto].
  apply mkdtemp_creates in Hmk as [_ Hdir].
  destruct (git_outcome env) as [rc err| |e]; [|eauto|eauto].
  cbn [fst snd].
  destruct (rc =? 0)%Z; cbn [negb]; cbv beta iota;
    [|destruct (rmtree_left env); eauto].
  destruct (git_started_keeps_dir fs1 tmp (git_leaves env) [] Hdir) as [es' Hes].
  rewrite (generate_file_tree_dir _ _ _ Hes). eauto.
Qed.

(** C1 (the code departs from it): when the [git] process is killed at the
    timeout, [clone_repo] returns a failure and the temporary directory it
    created in this call, absent before, exists afterwards: the handler of
    line 21 removes nothing, unlike the exit with a non-zero return code. *)
Theorem clone_repo_timeout_leaves_tmp env url depth fs tmp fs1 :
  tempfile_mkdtemp env (lit "repo_") fs = (Ret tmp, fs1) ->
  git_outcome env = TimedOut ->
  exists error fs',
    clone_repo env url depth fs = (Ret (CloneFail error), fs')
    /\ error <> []
    /\ os_path_exists fs tmp = false
    /\ os_path_exists fs' tmp = true.
Proof.
  intros Hmk Hgit. run_clone. rewrite Hmk, Hgit.
  apply mkdtemp_creates in Hmk as [Hno Hdir].
  destruct (git_started_keeps_dir fs1 tmp (git_leaves env) [] Hdir) as [es' Hes].
  do 2 eexists. split; [reflexivity|]. split; [discriminate|]. split; [assumption|].
  unfold os_path_exists. now rewrite Hes.
Qed.

Lemma clone_repo_timeout_leaves_tmp_witness :
  exists error fs',
    clone_repo hanging_env (lit "https://example.com/org/myrepo.git") 1 empty_tmp
    = (Ret (CloneFail error), fs')
    /\ error <> []
    /\ os_path_exists empty_tmp (lit "/tmp/repo_k3x9_q2a") = false
    /\ os_path_exists fs' (lit "/tmp/repo_k3x9_q2a") = true.
Proof.
  apply (clone_repo_timeout_leaves_tmp hanging_env _ 1%Z empty_tmp
           (lit "/tmp/repo_k3x9_q2a")
           (Dir [(lit "tmp", Dir [(lit "repo_k3x9_q2a", Dir [])])])).
  - vm_compute. reflexivity.
  - reflexivity.
Defined.

(** C2 (the code departs from it): on every existing directory
    [generate_file_tree] raises [TypeError], from the call of
    [os.path.realpath] with two positional arguments in the first turn of
    the loop; nothing in the function catches it. *)
Theorem generate_file_tree_raises fs path es :
  fs_resolve fs path = Some (Dir es) ->
  exists e, generate_file_tree fs path = Raise e /\ exn_kind e = TypeError.
Proof.
  intros H. rewrite (generate_file_tree_dir _ _ _ H). eauto.
Qed.

Lemma generate_file_tree_raises_witness :
  fs_resolve sample_tree (lit "repo/src")
  = Some (Dir [(lit "a.py", File (Some (blit "y = 2")))])
  /\ exists e, generate_file_tree sample_tree (lit "repo/src") = Raise e
               /\ exn_kind e = TypeError.
Proof.
  split; [reflexivity|].
  apply (generate_file_tree_raises sample_tree (lit "repo/src")
           [(lit "a.py", File (Some (blit "y = 2")))]).
  reflexivity.
Defined.

(** C3 (the code departs from it): on a tree where the claim asks for the
    sorted sequence [b.py], [src/a.py], [generate_file_tree] returns no
    sequence at all: it raises the [TypeError] of C2. On a path that is not
    a directory the loop has no turn and the sequence is empty; and on no
    input is a sequence with an entry returned. *)
Theorem generate_file_tree_sample :
  generate_file_tree sample_tree (lit "repo")
  = Raise {| exn_kind := TypeError;
             exn_msg := lit "realpath() takes 1 positional argument but 2 were given" |}
  /\ generate_file_tree sample_tree (lit "missing") = Ret []
  /\ forall fs path,
       match generate_file_tree fs path with
       | Ret tree => tree = []
       | Raise e => exn_kind e = TypeError
       end.
Proof.
  split; [vm_compute; reflexivity|]. split; [vm_compute; reflexivity|].
  intros fs path. destruct (fs_resolve fs path) as [[b|es]|] eqn:E.
  - unfold generate_file_tree. rewrite E. reflexivity.
  - rewrite (generate_file_tree_dir _ _ _ E). reflexivity.
  - unfold generate_file_tree. rewrite E. reflexivity.
Qed.

(** Line 17 on a URL whose last segment is [my.github.io]: it computes
    [myhub.io], since [replace] removes every [.git], not a suffix. C4
    speaks of this name in the result of a success, which [clone_repo]
    never returns. *)
Theorem repo_name_strips_inner_git :
  let url := lit "https://example.com/org/my.github.io/" in
  os_path_basename (rstrip (lit "/") url) = lit "my.github.io"
  /\ repo_name url = lit "myhub.io"
  /\ repo_name (lit "https://example.com/org/myrepo.git") = lit "myrepo".
Proof.
  cbv zeta. split; [vm_compute; reflexivity|]. split; vm_compute; reflexivity.
Qed.

(** ** [read_readme] *)

(** C7, as stated, fails: in a directory without any candidate,
    [read_readme] returns the empty [str] of line 48, not [None]. *)
Lemma read_readme_no_candidate_is_str :
  forallb (fun c => negb (os_path_exists no_readme_tree (os_path_join (lit "repo") c)))
          candidate = true
  /\ read_readme no_readme_tree (lit "repo") = PyStr []
  /\ read_readme no_readme_tree (lit "repo") <> PyNone.
Proof. split; [reflexivity | split; [reflexivity | discriminate]]. Qed.

(** C7, amended: [read_readme] looks for [README.md], [readme.md],
    [README.rst], [README] in this order; it returns the text read from the
    first one that exists, the empty string when reading or decoding it
    fails, and the empty string when none exists. *)
Theorem read_readme_first_existing fs path :
  read_readme fs path
  = match find (fun c => os_path_exists fs (os_path_join path c))
               [lit "README.md"; lit "readme.md"; lit "README.rst"; lit "README"] with
    | Some c =>
        match read_text fs (os_path_join path c) with
        | Ret text => PyStr text
        | Raise _ => PyStr []
        end
    | None => PyStr []
    end.
Proof.
  unfold read_readme, candidate.
  generalize [lit "README.md"; lit "readme.md"; lit "README.rst"; lit "README"].
  intros cs; induction cs as [|c cs IH]; simpl; [reflexivity|].
  destruct (os_path_exists fs (os_path_join path c)); [reflexivity | exact IH].
Qed.

(** ** [parse_with_treesitter] *)

(** C5 (the code departs from it): on the file of scenario A the symbols
    are the function [foo] at line 1 and the class [Bar] at line 3, not 4:
    the [\s*] after [^] takes the newline of the empty line 3, so the match
    of [class_pattern] starts on that line. The calls are [foo] at line
    1. *)
Theorem parse_scenario_a (lower : str -> str) :
  exists summ,
    parse_with_treesitter lower scenario_a_fs (lit "a.py")
    = ParseOk [ {| sym_type := function; sym_name := lit "foo"; sym_lineno := 1 |};
                {| sym_type := class; sym_name := lit "Bar"; sym_lineno := 3 |} ]
              [ {| call_name := lit "foo"; call_lineno := 1 |} ]
              summ
    /\ map m_start (finditer class_pattern (decode_ignore scenario_a)) = [21%nat]
    /\ nth 21 (decode_ignore scenario_a) 0 = LF
    /\ firstn 5 (skipn 22 (decode_ignore scenario_a)) = lit "class".
Proof.
  eexists. split; [vm_compute; reflexivity|].
  split; [vm_compute; reflexivity|]. split; vm_compute; reflexivity.
Qed.

(** C8: [parse_with_treesitter] returns the failure [cannot read file] when
    the bytes of the file cannot be read, and a success for every file that
    can be read, whatever its bytes. *)
Theorem parse_fails_iff_unreadable (lower : str -> str) fs file_path :
  match read_bytes fs file_path with
  | Raise _ => parse_with_treesitter lower fs file_path = ParseFail (lit "cannot read file")
  | Ret content =>
      exists symbols calls summ,
        parse_with_treesitter lower fs file_path = ParseOk symbols calls summ
  end.
Proof.
  unfold parse_with_treesitter, _read_file_bytes.
  destruct (read_bytes fs file_path); [eauto | reflexivity].
Qed.

Lemma slice_first_ten {A} (l : list A) :
  slice l 0 10 = firstn (Nat.min 10 (List.length l)) l.
Proof.
  unfold slice, slice_index. cbv zeta.
  change (0 <? 0)%Z with false. change (10 <? 0)%Z with false. cbv iota.
  replace (Z.to_nat (Z.min (Z.of_nat (List.length l)) (Z.max 0 0))) with 0%nat by lia.
  replace (Z.to_nat (Z.min (Z.of_nat (List.length l)) (Z.max 0 10)))
    with (Nat.min 10 (List.length l)) by lia.
  cbn [skipn]. now rewrite Nat.sub_0_r.
Qed.

(** C9: in a success, [num_symbols] and [num_calls] are the lengths of
    [symbols] and [calls], and [top_symbols] is the first [min 10 (len
    symbols)] entries of [symbols], in the same order. *)
Theorem summary_consistent (lower : str -> str) fs file_path symbols calls summ :
  parse_with_treesitter lower fs file_path = ParseOk symbols calls summ ->
  num_symbols summ = List.length symbols
  /\ num_calls summ = List.length calls
  /\ top_symbols summ = firstn (Nat.min 10 (List.length symbols)) symbols.
Proof.
  unfold parse_with_treesitter.
  destruct (_read_file_bytes fs file_path) as [content|]; [|discriminate].
  intros H; injection H as <- <- <-. cbn [num_symbols num_calls top_symbols].
  repeat split. apply slice_first_ten.
Qed.

Lemma summary_consistent_witness :
  parse_with_treesitter (fun s => s) scenario_a_fs (lit "a.py")
  = ParseOk scenario_a_symbols scenario_a_calls scenario_a_summary
  /\ num_symbols scenario_a_summary = List.length scenario_a_symbols
  /\ num_calls scenario_a_summary = List.length scenario_a_calls
  /\ top_symbols scenario_a_summary
     = firstn (Nat.min 10 (List.length scenario_a_symbols)) scenario_a_symbols.
Proof.
  assert (E : parse_with_treesitter (fun s => s) scenario_a_fs (lit "a.py")
              = ParseOk scenario_a_symbols scenario_a_calls scenario_a_summary)
    by (vm_compute; reflexivity).
  exact (conj E (summary_consistent (fun s => s) scenario_a_fs (lit "a.py") _ _ _ E)).
Defined.

(** ** The matcher *)

Section Matcher.

Context {R : Type}.
Variable cls : N -> bool.
Variable k : option N -> str -> nat -> option R.

(** A quantifier that succeeds hands over to the rest of the pattern,
    some characters further. *)
Lemma rep_inv lo hi : forall rest count prev off r,
  rep cls lo hi k count prev rest off = Some r ->
  exists n prev' rest', k prev' rest' (off + n)%nat = Some r.
Proof.
  induction rest as [|c rest IH]; intros count prev off r; simpl.
  - destruct (lo <=? count)%nat; [|discriminate].
    intros H. exists 0%nat, prev, []. now rewrite Nat.add_0_r.
  - destruct (cls c && below count hi).
    + destruct (rep cls lo hi k (S count) (Some c) rest (S off)) as [r'|] eqn:E.
      * intros H; injection H as <-.
        apply IH in E as (n & prev' & rest' & E).
        exists (S n), prev', rest'. now rewrite Nat.add_succ_r.
      * destruct (lo <=? count)%nat; [|discriminate].
        intros H. exists 0%nat, prev, (c :: rest). now rewrite Nat.add_0_r.
    + destruct (lo <=? count)%nat; [|discriminate].
      intros H. exists 0%nat, prev, (c :: rest). now rewrite Nat.add_0_r.
Qed.

(** Exactly one character of the class. *)
Lemma rep_one prev rest off r :
  rep cls 1 (Some 1%nat) k 0 prev rest off = Some r ->
  exists c rest', rest = c :: rest' /\ cls c = true
                  /\ k (Some c) rest' (S off) = Some r.
Proof.
  destruct rest as [|c rest']; simpl; [discriminate|].
  destruct (cls c) eqn:Hc; simpl; [|discriminate].
  assert (E : rep cls 1 (Some 1%nat) k 1 (Some c) rest' (S off)
              = k (Some c) rest' (S off)).
  { destruct rest' as [|d rest'']; simpl; [reflexivity|].
    now rewrite andb_false_r. }
  rewrite E. destruct (k (Some c) rest' (S off)) as [r'|] eqn:K; [|discriminate].
  intros H; injection H as <-. exists c, rest'. auto.
Qed.

End Matcher.

(** Group 1 of a match of [call_pattern] starts where the match starts,
    with a character of [[A-Za-z_]]. *)
Lemma call_pattern_group prev rest len go gc :
  match_here call_pattern prev rest 0 (0, 0)%nat = Some (len, (go, gc)) ->
  exists c tl, firstn (gc - go) (skipn go rest) = c :: tl /\ is_word_start c = true.
Proof.
  unfold call_pattern, one, star. cbn [match_here fst snd].
  intros H.
  apply rep_one in H as (c & rest' & -> & Hc & H).
  apply rep_inv in H as (n & prev1 & rest1 & H).
  apply rep_inv in H as (m & prev2 & rest2 & H).
  destruct (strip_prefix (lit "(") rest2); [|discriminate].
  injection H as _ <- <-.
  exists c, (firstn n rest'). split; [|assumption].
  now rewrite Nat.sub_0_r.
Qed.

(** What holds of group 1 of every match from a position holds of every
    match [finditer] yields. *)
Lemma finditer_from_group (re : list item) (P : str -> Prop) :
  (forall prev rest len go gc,
      match_here re prev rest 0 (0, 0)%nat = Some (len, (go, gc)) ->
      P (firstn (gc - go) (skipn go rest))) ->
  forall rest prev pos skip,
    Forall (fun m => P (m_group1 m)) (finditer_from re prev rest pos skip).
Proof.
  intros HP. induction rest as [|c rest IH]; intros prev pos skip.
  - cbn [finditer_from]. destruct skip; [|constructor].
    destruct (match_here re prev [] 0 (0, 0)%nat) as [[len [go gc]]|] eqn:E;
      constructor; [|constructor].
    cbn [m_group1]. eapply HP; eassumption.
  - cbn [finditer_from]. destruct skip.
    + destruct (match_here re prev (c :: rest) 0 (0, 0)%nat) as [[len [go gc]]|] eqn:E.
      * constructor; [|apply IH]. cbn [m_group1]. eapply HP; eassumption.
      * apply IH.
    + apply IH.
Qed.

Lemma word_start_not_digit c : is_word_start c = true -> is_digit c = false.
Proof.
  unfold is_word_start, is_digit, in_range, char_in. cbn.
  rewrite orb_false_r, !orb_true_iff, !andb_true_iff, !N.leb_le, N.eqb_eq.
  intros H. apply andb_false_iff.
  destruct (48 <=? c) eqn:E1; [right | now left].
  apply N.leb_le in E1. apply N.leb_gt. lia.
Qed.

(** C10: on the line [def 0name(] the analyzer returns a function symbol
    whose name, [0name], starts with a digit; and in every result the name
    of a call is not empty and does not start with a digit. *)
Theorem digit_names_in_symbols_not_calls (lower : str -> str) :
  (exists calls summ,
      parse_with_treesitter lower digit_def_fs (lit "d.py")
      = ParseOk [ {| sym_type := function; sym_name := lit "0name"; sym_lineno := 1 |} ]
                calls summ
      /\ match lit "0name" with c :: _ => is_digit c | [] => false end = true)
  /\ forall fs file_path,
       match parse_with_treesitter lower fs file_path with
       | ParseOk _ calls _ =>
           Forall (fun c => exists ch tl, call_name c = ch :: tl /\ is_digit ch = false) calls
       | ParseFail _ => True
       end.
Proof.
  split.
  - do 2 eexists. split; vm_compute; reflexivity.
  - intros fs file_path. unfold parse_with_treesitter.
    destruct (_read_file_bytes fs file_path) as [content|]; [|exact I].
    apply Forall_map. cbn [call_name].
    unfold finditer.
    eapply Forall_impl;
      [|apply (finditer_from_group call_pattern
                 (fun g => exists c tl, g = c :: tl /\ is_word_start c = true))].
    + intros m (c & tl & E & Hc). exists c, tl. split; [assumption|].
      now apply word_start_not_digit.
    + intros prev rest len go gc H. eapply call_pattern_group; eassumption.
Qed.

(** ** [extract_code_snippet] *)

Lemma split_lines_text_lines t : text_lines (split_lines t).
Proof.
  induction t as [|c t IH]; simpl; [constructor|].
  destruct (c =? LF) eqn:E.
  - apply N.eqb_eq in E; subst. apply (tl_cons []); [easy | assumption].
  - apply N.eqb_neq in E.
    inversion IH as [Hn | l Hl Hno Hn | body ls Hno Hls Hn].
    + apply tl_last; [discriminate|]. intros [->|[]]. congruence.
    + apply tl_last; [discriminate|]. intros [->|H]; [congruence | contradiction].
    + apply (tl_cons (c :: body)); [|assumption].
      intros [->|H]; [congruence | contradiction].
Qed.

Lemma split_lines_unterminated l :
  l <> [] -> ~ In LF l -> split_lines l = [l].
Proof.
  induction l as [|c l IH]; [congruence|]. intros _ Hno. simpl.
  destruct (c =? LF) eqn:E.
  - apply N.eqb_eq in E. exfalso. apply Hno. now left.
  - destruct l as [|d l']; [reflexivity|].
    rewrite IH; [reflexivity | discriminate |].
    intros H. apply Hno. now right.
Qed.

Lemma split_lines_terminated body rest :
  ~ In LF body -> split_lines (body ++ LF :: rest) = (body ++ [LF]) :: split_lines rest.
Proof.
  induction body as [|c body IH]; intros Hno; simpl.
  - reflexivity.
  - destruct (c =? LF) eqn:E.
    + apply N.eqb_eq in E. exfalso. apply Hno. now left.
    + rewrite IH; [reflexivity|]. intros H. apply Hno. now right.
Qed.

(** Splitting the concatenation of such lines gives them back. *)
Lemma split_lines_concat ls : text_lines ls -> split_lines (List.concat ls) = ls.
Proof.
  induction 1 as [| l Hl Hno | body ls Hno Hls IH]; simpl.
  - reflexivity.
  - rewrite app_nil_r. now apply split_lines_unterminated.
  - rewrite <- app_assoc. simpl. rewrite split_lines_terminated by assumption.
    now rewrite IH.
Qed.

Lemma text_lines_tail l ls : text_lines (l :: ls) -> text_lines ls.
Proof. inversion 1; [constructor | assumption]. Qed.

Lemma text_lines_skipn n : forall ls, text_lines ls -> text_lines (skipn n ls).
Proof.
  induction n as [|n IH]; intros ls H; [assumption|].
  destruct ls as [|l ls]; [constructor|]. simpl.
  apply IH. eapply text_lines_tail; eassumption.
Qed.

Lemma text_lines_firstn n : forall ls, text_lines ls -> text_lines (firstn n ls).
Proof.
  induction n as [|n IH]; intros ls H; [constructor|].
  inversion H as [Hn | l Hl Hno Hn | body ls' Hno Hls Hn]; subst; simpl.
  - constructor.
  - rewrite firstn_nil. now apply tl_last.
  - apply tl_cons; [assumption | now apply IH].
Qed.

Lemma text_lines_window ls lo hi : text_lines ls -> text_lines (window ls lo hi).
Proof. intros H. apply text_lines_firstn, text_lines_skipn, H. Qed.

(** The slice of lines 64 and 65 is the window of the claim. *)
Lemma slice_is_window {A} (lines : list A) (L C : Z) :
  (0 < L)%Z -> (0 <= C)%Z ->
  slice lines (Z.max 0 (L - C - 1)) (Z.min (Z.of_nat (List.length lines)) (L + C))
  = window lines (Z.to_nat (Z.max 0 (L - C - 1)))
           (Z.to_nat (Z.min (Z.of_nat (List.length lines)) (L + C))).
Proof.
  intros HL HC. unfold slice, slice_index, window.
  set (len := List.length lines).
  set (lo := Z.max 0 (L - C - 1)). set (hi := Z.min (Z.of_nat len) (L + C)).
  assert (Hlo : (lo <? 0)%Z = false) by (apply Z.ltb_ge; lia).
  assert (Hhi : (hi <? 0)%Z = false) by (apply Z.ltb_ge; lia).
  rewrite Hlo, Hhi.
  replace (Z.to_nat (Z.min (Z.of_nat len) (Z.max 0 hi))) with (Z.to_nat hi) by lia.
  destruct (Z_le_gt_dec lo (Z.of_nat len)) as [Hle|Hgt].
  - now replace (Z.to_nat (Z.min (Z.of_nat len) (Z.max 0 lo))) with (Z.to_nat lo) by lia.
  - replace (Z.to_nat (Z.min (Z.of_nat len) (Z.max 0 lo))) with len by lia.
    rewrite (skipn_all2 lines) by (fold len; lia).
    rewrite (skipn_all2 lines) by (fold len; lia).
    now rewrite !firstn_nil.
Qed.

Lemma window_single (lines : list str) : forall n,
  List.concat (window lines n (Nat.min (List.length lines) (S n))) = nth n lines [].
Proof.
  unfold window. induction lines as [|x lines IH]; intros n.
  - rewrite skipn_nil, firstn_nil. now destruct n.
  - destruct n as [|n].
    + simpl. rewrite Nat.min_0_r. simpl. apply app_nil_r.
    + cbn [List.length skipn nth]. rewrite <- Nat.succ_min_distr.
      rewrite Nat.sub_succ. apply IH.
Qed.

(** C6, as stated, fails: of a file whose lines end with ["\r\n"], the
    snippet of line 1 is ["a\n"], while the line with its original
    terminator is ["a\r\n"]. *)
Lemma extract_code_snippet_crlf :
  decode_strict crlf_file = Ret (lit "a" ++ [CR; LF] ++ lit "b" ++ [CR; LF])
  /\ extract_code_snippet crlf_fs (lit "f.txt") 1 0 = lit "a" ++ [LF]
  /\ snippet_as_claimed (lit "a" ++ [CR; LF] ++ lit "b" ++ [CR; LF]) 1 0
     = lit "a" ++ [CR; LF]
  /\ extract_code_snippet crlf_fs (lit "f.txt") 1 0
     <> snippet_as_claimed (lit "a" ++ [CR; LF] ++ lit "b" ++ [CR; LF]) 1 0.
Proof.
  split; [vm_compute; reflexivity|].
  split; [vm_compute; reflexivity|].
  split; [vm_compute; reflexivity|].
  vm_compute. discriminate.
Qed.

(** C6, amended: for a file that reads as UTF-8, with [lines] the lines of
    its text as text mode gives them (["\r\n"] and ["\r"] read as ["\n"],
    each line keeping its ["\n"]), a positive [L] and a non-negative [C],
    [extract_code_snippet] returns the concatenation of the lines of the
    window from [max 0 (L - C - 1)] to [min (len lines) (L + C)]; the
    snippet has those lines and no more than [2C + 1] of them; with [C = 0]
    it is line [L], or empty when there is no such line. *)
Theorem extract_code_snippet_window fs file_path content text (L C : Z) :
  read_bytes fs file_path = Ret content ->
  decode_strict content = Ret text ->
  (0 < L)%Z -> (0 <= C)%Z ->
  let lines := split_lines (universal_newlines text) in
  let w := window lines (Z.to_nat (Z.max 0 (L - C - 1)))
                  (Z.to_nat (Z.min (Z.of_nat (List.length lines)) (L + C))) in
  extract_code_snippet fs file_path L C = List.concat w
  /\ split_lines (extract_code_snippet fs file_path L C) = w
  /\ (List.length w <= Z.to_nat (2 * C + 1))%nat
  /\ (C = 0%Z ->
      extract_code_snippet fs file_path L C = nth (Z.to_nat (L - 1)) lines []).
Proof.
  intros Hread Hdec HL HC lines w.
  assert (E : extract_code_snippet fs file_path L C = List.concat w).
  { unfold extract_code_snippet, readlines, read_text.
    rewrite Hread. cbn [rbind]. rewrite Hdec. cbn [rbind].
    fold lines. now rewrite slice_is_window. }
  split; [exact E|]. split; [|split].
  - rewrite E. apply split_lines_concat, text_lines_window, split_lines_text_lines.
  - unfold w, window. etransitivity; [apply firstn_le_length|]. lia.
  - intros ->. rewrite E. unfold w.
    replace (Z.to_nat (Z.max 0 (L - 0 - 1))) with (Z.to_nat (L - 1)) by lia.
    replace (Z.to_nat (Z.min (Z.of_nat (List.length lines)) (L + 0)))
      with (Nat.min (List.length lines) (S (Z.to_nat (L - 1)))) by lia.
    apply window_single.
Qed.

Lemma extract_code_snippet_window_witness :
  let lines := split_lines (universal_newlines (decode_ignore scenario_a)) in
  let w := window lines 2 5 in
  extract_code_snippet scenario_a_fs (lit "a.py") 4 1 = List.concat w
  /\ split_lines (extract_code_snippet scenario_a_fs (lit "a.py") 4 1) = w
  /\ (List.length w <= 3)%nat
  /\ (1%Z = 0%Z ->
      extract_code_snippet scenario_a_fs (lit "a.py") 4 1 = nth 3 lines []).
Proof.
  apply (extract_code_snippet_window scenario_a_fs (lit "a.py") scenario_a
           (decode_ignore scenario_a) 4 1).
  - vm_compute. reflexivity.
  - vm_compute. reflexivity.
  - lia.
  - lia.
Defined.

(** * Further properties *)

(** ** The shape of a match *)

Lemma strip_prefix_app p : forall s s', strip_prefix p s = Some s' -> s = p ++ s'.
Proof.
  induction p as [|x p IH]; intros [|y s] s'; simpl; try discriminate.
  - now intros [= <-].
  - now intros [= <-].
  - destruct (x =? y) eqn:E; [|discriminate].
    apply N.eqb_eq in E; subst. intros H. f_equal. now apply IH.
Qed.

Section MatcherShape.

Context {R : Type}.
Variable cls : N -> bool.
Variable k : option N -> str -> nat -> option R.

(** A quantifier that succeeds took a run of characters of its class, at
    least [lo] with those counted before, and the rest of the pattern
    matched what follows the run. *)
Lemma rep_taken lo hi : forall rest count prev off r,
  rep cls lo hi k count prev rest off = Some r ->
  exists taken prev' rest',
    rest = taken ++ rest'
    /\ forallb cls taken = true
    /\ (lo <= count + List.length taken)%nat
    /\ k prev' rest' (off + List.length taken)%nat = Some r.
Proof.
  assert (Stop : forall rest count prev off r,
             (if (lo <=? count)%nat then k prev rest off else None) = Some r ->
             exists taken prev' rest',
               rest = taken ++ rest'
               /\ forallb cls taken = true
               /\ (lo <= count + List.length taken)%nat
               /\ k prev' rest' (off + List.length taken)%nat = Some r).
  { intros rest count prev off r H.
    destruct (lo <=? count)%nat eqn:E; [|discriminate].
    apply Nat.leb_le in E.
    exists [], prev, rest. simpl. rewrite !Nat.add_0_r. auto. }
  induction rest as [|c rest IH]; intros count prev off r; simpl.
  - apply Stop.
  - destruct (cls c && below count hi) eqn:Hc; [|apply Stop].
    destruct (rep cls lo hi k (S count) (Some c) rest (S off)) as [r'|] eqn:E;
      [|apply Stop].
    intros H; injection H as <-.
    apply IH in E as (taken & prev' & rest' & -> & Hall & Hlo & Hk).
    apply andb_prop in Hc as [Hc _].
    exists (c :: taken), prev', rest'. simpl. rewrite Hc, Hall.
    rewrite !Nat.add_succ_r. simpl in *. auto.
Qed.

End MatcherShape.

Lemma firstn_skipn_middle {A} (a b c : list A) :
  firstn (List.length a + List.length b - List.length a) (skipn (List.length a) (a ++ b ++ c))
  = b.
Proof.
  rewrite skipn_app, skipn_all, Nat.sub_diag. simpl.
  replace (List.length a + List.length b - List.length a)%nat with (List.length b) by lia.
  rewrite firstn_app, firstn_all, Nat.sub_diag. simpl. apply app_nil_r.
Qed.

(** A match of [func_pattern]: spaces, [def], at least one space, the name
    (group 1, a non-empty run of [[A-Za-z0-9_]]), spaces, an opening
    parenthesis. *)
Lemma func_pattern_shape prev rest len go gc :
  match_here func_pattern prev rest 0 (0, 0)%nat = Some (len, (go, gc)) ->
  exists w1 w2 name w3 tail,
    rest = (w1 ++ lit "def" ++ w2) ++ name ++ (w3 ++ lit "(" ++ tail)
    /\ forallb is_word name = true /\ name <> []
    /\ go = List.length (w1 ++ lit "def" ++ w2)
    /\ gc = (go + List.length name)%nat.
Proof.
  unfold func_pattern, star, plus. cbn [match_here fst snd].
  destruct (at_bol prev); [|discriminate]. intros H.
  apply rep_taken in H as (w1 & p1 & r1 & -> & _ & _ & H).
  destruct (strip_prefix (lit "def") r1) as [r1'|] eqn:E1; [|discriminate].
  apply strip_prefix_app in E1 as ->.
  apply rep_taken in H as (w2 & p2 & r2 & -> & _ & _ & H).
  apply rep_taken in H as (name & p3 & r3 & -> & Hname & Hlen & H).
  apply rep_taken in H as (w3 & p4 & r4 & -> & _ & _ & H).
  destruct (strip_prefix (lit "(") r4) as [tail|] eqn:E2; [|discriminate].
  apply strip_prefix_app in E2 as ->.
  injection H as _ <- <-.
  exists w1, w2, name, w3, tail.
  split; [now rewrite <- !app_assoc|]. split; [assumption|].
  split; [intros ->; simpl in Hlen; lia|].
  split; [rewrite !length_app; simpl; lia | reflexivity].
Qed.

(** A match of [class_pattern]: spaces, [class], at least one space, the
    name (group 1), then what the rest of the pattern takes. *)
Lemma class_pattern_shape prev rest len go gc :
  match_here class_pattern prev rest 0 (0, 0)%nat = Some (len, (go, gc)) ->
  exists w1 w2 name tail,
    rest = (w1 ++ lit "class" ++ w2) ++ name ++ tail
    /\ forallb is_word name = true /\ name <> []
    /\ go = List.length (w1 ++ lit "class" ++ w2)
    /\ gc = (go + List.length name)%nat.
Proof.
  unfold class_pattern, star, plus, opt. cbn [match_here fst snd].
  destruct (at_bol prev); [|discriminate]. intros H.
  apply rep_taken in H as (w1 & p1 & r1 & -> & _ & _ & H).
  destruct (strip_prefix (lit "class") r1) as [r1'|] eqn:E1; [|discriminate].
  apply strip_prefix_app in E1 as ->.
  apply rep_taken in H as (w2 & p2 & r2 & -> & _ & _ & H).
  apply rep_taken in H as (name & p3 & r3 & -> & Hname & Hlen & H).
  apply rep_taken in H as (w3 & p4 & r4 & -> & _ & _ & H).
  apply rep_taken in H as (o & p5 & r5 & -> & _ & _ & H).
  injection H as _ <- <-.
  exists w1, w2, name, (w3 ++ o ++ r5).
  split; [now rewrite <- !app_assoc|]. split; [assumption|].
  split; [intros ->; simpl in Hlen; lia|].
  split; [rewrite !length_app; simpl; lia | reflexivity].
Qed.

(** A match of [call_pattern]: the name (group 1: a character of
    [[A-Za-z_]], then a run of [[A-Za-z0-9_]]), spaces, an opening
    parenthesis. *)
Lemma call_pattern_shape prev rest len go gc :
  match_here call_pattern prev rest 0 (0, 0)%nat = Some (len, (go, gc)) ->
  exists c name w tail,
    rest = (c :: name) ++ w ++ lit "(" ++ tail
    /\ is_word_start c = true /\ forallb is_word name = true
    /\ go = 0%nat /\ gc = S (List.length name).
Proof.
  unfold call_pattern, one, star. cbn [match_here fst snd]. intros H.
  apply rep_one in H as (c & rest' & -> & Hc & H).
  apply rep_taken in H as (name & p1 & r1 & -> & Hname & _ & H).
  apply rep_taken in H as (w & p2 & r2 & -> & _ & _ & H).
  destruct (strip_prefix (lit "(") r2) as [tail|] eqn:E; [|discriminate].
  apply strip_prefix_app in E as ->.
  injection H as _ <- <-.
  exists c, name, w, tail.
  split; [reflexivity|]. split; [assumption|]. split; [assumption|].
  split; [reflexivity | lia].
Qed.

(** ** Names *)

(** The names the analyzer returns are identifiers of the patterns: the
    name of a symbol is a non-empty run of [[A-Za-z0-9_]]; the name of a
    call is a character of [[A-Za-z_]] followed by a run of
    [[A-Za-z0-9_]]. No name is empty, and none holds a space, a dot or a
    parenthesis. *)
Theorem names_are_identifiers (lower : str -> str) fs file_path :
  match parse_with_treesitter lower fs file_path with
  | ParseOk symbols calls _ =>
      Forall (fun s => sym_name s <> [] /\ forallb is_word (sym_name s) = true) symbols
      /\ Forall (fun c => exists ch tl,
                     call_name c = ch :: tl
                     /\ is_word_start ch = true /\ forallb is_word tl = true) calls
  | ParseFail _ => True
  end.
Proof.
  unfold parse_with_treesitter.
  destruct (_read_file_bytes fs file_path) as [content|]; [|exact I].
  split.
  - apply Forall_app. split; apply Forall_map; cbn [sym_name]; unfold finditer.
    + apply (finditer_from_group func_pattern
               (fun g => g <> [] /\ forallb is_word g = true)).
      intros prev rest len go gc H.
      apply func_pattern_shape in H as (w1 & w2 & name & w3 & tail & -> & Hw & Hne & -> & ->).
      rewrite firstn_skipn_middle. auto.
    + apply (finditer_from_group class_pattern
               (fun g => g <> [] /\ forallb is_word g = true)).
      intros prev rest len go gc H.
      apply class_pattern_shape in H as (w1 & w2 & name & tail & -> & Hw & Hne & -> & ->).
      rewrite firstn_skipn_middle. auto.
  - apply Forall_map; cbn [call_name]; unfold finditer.
    apply (finditer_from_group call_pattern
             (fun g => exists ch tl, g = ch :: tl
                                     /\ is_word_start ch = true
                                     /\ forallb is_word tl = true)).
    intros prev rest len go gc H.
    apply call_pattern_shape in H as (c & name & w & tail & -> & Hc & Hw & -> & ->).
    exists c, name. split; [|auto].
    rewrite Nat.sub_0_r. cbn [skipn]. simpl.
    now rewrite firstn_app, firstn_all, Nat.sub_diag, app_nil_r.
Qed.

(** ** The order of the matches *)

(** [finditer] yields its matches from left to right: each starts at or
    after the position the search is at, and before the next one. *)
Lemma finditer_from_starts (re : list item) : forall rest prev pos skip,
  StronglySorted (fun a b => (m_start a < m_start b)%nat)
                 (finditer_from re prev rest pos skip)
  /\ Forall (fun m => (pos <= m_start m)%nat) (finditer_from re prev rest pos skip).
Proof.
  induction rest as [|c rest IH]; intros prev pos skip.
  - cbn [finditer_from]. destruct skip.
    + destruct (match_here re prev [] 0 (0, 0)%nat) as [[len [go gc]]|].
      * split; repeat constructor.
      * split; constructor.
    + split; constructor.
  - assert (Step : forall skip',
               let l := finditer_from re (Some c) rest (S pos) skip' in
               forall m, m_start m = pos ->
                 StronglySorted (fun a b => (m_start a < m_start b)%nat) (m :: l)
                 /\ Forall (fun m => (pos <= m_start m)%nat) (m :: l)).
    { intros skip' l m Hm. destruct (IH (Some c) (S pos) skip') as [Hs Hf].
      fold l in Hs, Hf. split.
      - constructor; [assumption|].
        eapply Forall_impl; [|exact Hf]. intros a Ha. simpl in Ha. lia.
      - constructor; [lia|].
        eapply Forall_impl; [|exact Hf]. intros a Ha. simpl in Ha. lia. }
    assert (Skip : forall skip',
               let l := finditer_from re (Some c) rest (S pos) skip' in
               StronglySorted (fun a b => (m_start a < m_start b)%nat) l
               /\ Forall (fun m => (pos <= m_start m)%nat) l).
    { intros skip' l. destruct (IH (Some c) (S pos) skip') as [Hs Hf].
      fold l in Hs, Hf. split; [assumption|].
      eapply Forall_impl; [|exact Hf]. intros a Ha. simpl in Ha. lia. }
    cbn [finditer_from]. destruct skip.
    + destruct (match_here re prev (c :: rest) 0 (0, 0)%nat) as [[len [go gc]]|].
      * apply Step. reflexivity.
      * apply Skip.
    + apply Skip.
Qed.

Lemma count_newlines_firstn_le (t : str) (a b : nat) :
  (a <= b)%nat ->
  (count_newlines (firstn a t) <= count_newlines (firstn b t))%nat.
Proof.
  intros Hab. unfold count_newlines.
  rewrite <- (firstn_skipn a (firstn b t)), firstn_firstn, Nat.min_l by assumption.
  rewrite filter_app, length_app. lia.
Qed.

Lemma StronglySorted_map {A B} (f : A -> B) (R : A -> A -> Prop) (S : B -> B -> Prop) l :
  (forall a b, R a b -> S (f a) (f b)) ->
  StronglySorted R l -> StronglySorted S (map f l).
Proof.
  intros HRS. induction 1 as [|a l Hl IH Ha]; simpl; constructor; [assumption|].
  apply Forall_map. eapply Forall_impl; [|exact Ha]. intros b. apply HRS.
Qed.

Lemma linenos_sorted (re : list item) (text : str) {A} (f : re_match -> A)
    (line : A -> nat) :
  (forall m, line (f m) = lineno_of text m) ->
  StronglySorted (fun a b => (line a <= line b)%nat) (map f (finditer re text)).
Proof.
  intros Hline. unfold finditer.
  eapply StronglySorted_map; [|apply (finditer_from_starts re text None 0 0)].
  intros a b Hab. cbv beta in Hab. rewrite !Hline. unfold lineno_of.
  apply Nat.add_le_mono_r, count_newlines_firstn_le. lia.
Qed.

(** In a result the symbols are the functions, then the classes; within the
    functions, within the classes and within the calls, the line numbers
    never decrease. *)
Theorem symbols_by_kind_then_line (lower : str -> str) fs file_path :
  match parse_with_treesitter lower fs file_path with
  | ParseOk symbols calls _ =>
      StronglySorted (fun a b => (call_lineno a <= call_lineno b)%nat) calls
      /\ exists funcs classes,
           symbols = funcs ++ classes
           /\ Forall (fun s => sym_type s = function) funcs
           /\ Forall (fun s => sym_type s = class) classes
           /\ StronglySorted (fun a b => (sym_lineno a <= sym_lineno b)%nat) funcs
           /\ StronglySorted (fun a b => (sym_lineno a <= sym_lineno b)%nat) classes
  | ParseFail _ => True
  end.
Proof.
  unfold parse_with_treesitter.
  destruct (_read_file_bytes fs file_path) as [content|]; [|exact I].
  split; [apply linenos_sorted; reflexivity|].
  eexists _, _. split; [reflexivity|].
  split; [apply Forall_map, Forall_forall; reflexivity|].
  split; [apply Forall_map, Forall_forall; reflexivity|].
  split; apply linenos_sorted; reflexivity.
Qed.

(** ** The two ways of reading a file *)

Lemma all_some_flat_map (l : list (option N)) (s : str) :
  all_some l = Some s ->
  flat_map (fun o => match o with Some c => [c] | None => [] end) l = s.
Proof.
  revert s. induction l as [|[c|] l IH]; intros s; simpl.
  - now intros [= <-].
  - destruct (all_some l) as [s'|]; [|discriminate].
    intros [= <-]. f_equal. now apply IH.
  - discriminate.
Qed.

Lemma decode_ignore_of_strict (content : bytes) (text : str) :
  decode_strict content = Ret text -> decode_ignore content = text.
Proof.
  unfold decode_strict, decode_ignore.
  destruct (all_some (utf8_scan content)) as [s|] eqn:E; [|discriminate].
  intros [= <-]. now apply all_some_flat_map.
Qed.



(** ** Lines and text *)

(** [readlines] loses nothing: the lines, put end to end, are the text. *)
Lemma concat_split_lines (t : str) : List.concat (split_lines t) = t.
Proof.
  induction t as [|c t IH]; simpl; [reflexivity|].
  destruct (c =? LF).
  - simpl. now rewrite IH.
  - destruct (split_lines t) as [|l ls]; simpl in *.
    + now rewrite <- IH.
    + now rewrite <- IH.
Qed.

Lemma window_decompose {A} (l : list A) (m n : nat) :
  l = firstn m l ++ firstn n (skipn m l) ++ skipn n (skipn m l).
Proof. now rewrite firstn_skipn, firstn_skipn. Qed.

Lemma universal_newlines_no_cr_upto (n : nat) : forall t,
  (List.length t <= n)%nat -> ~ In CR (universal_newlines t).
Proof.
  induction n as [|n IH]; intros [|c t] Hlen; simpl in *; try tauto; try lia.
  destruct (c =? CR) eqn:E.
  - intros [H|H]; [discriminate|].
    destruct t as [|d t']; [exact H|].
    destruct (d =? LF); (eapply IH; [|exact H]); simpl in *; lia.
  - apply N.eqb_neq in E. intros [H|H]; [congruence|].
    eapply IH; [|exact H]. lia.
Qed.

Lemma universal_newlines_no_cr (t : str) : ~ In CR (universal_newlines t).
Proof. apply (universal_newlines_no_cr_upto (List.length t)). lia. Qed.

Lemma universal_newlines_id (t : str) : ~ In CR t -> universal_newlines t = t.
Proof.
  induction t as [|c t IH]; intros H; simpl; [reflexivity|].
  destruct (c =? CR) eqn:E.
  - apply N.eqb_eq in E. exfalso. apply H. now left.
  - f_equal. apply IH. intros Hin. apply H. now right.
Qed.

Lemma read_text_no_cr fs p s : read_text fs p = Ret s -> ~ In CR s.
Proof.
  unfold read_text.
  destruct (read_bytes fs p) as [b|e]; [|discriminate]. cbn [rbind].
  destruct (decode_strict b) as [t|e]; [|discriminate]. cbn [rbind].
  intros [= <-]. apply universal_newlines_no_cr.
Qed.

(** Whatever the line number and the context, also zero or negative, the
    snippet of a file that reads as UTF-8 is a contiguous part of its text
    (the text as text mode reads it). *)
Theorem snippet_is_part_of_text fs file_path content text (L C : Z) :
  read_bytes fs file_path = Ret content ->
  decode_strict content = Ret text ->
  exists before after,
    universal_newlines text = before ++ extract_code_snippet fs file_path L C ++ after.
Proof.
  intros Hread Hdec.
  unfold extract_code_snippet, readlines, read_text.
  rewrite Hread. cbn [rbind]. rewrite Hdec. cbn [rbind].
  set (lines := split_lines (universal_newlines text)).
  unfold slice.
  set (a := slice_index _ (Z.max _ _)). set (n := (slice_index _ _ - a)%nat).
  exists (List.concat (firstn a lines)), (List.concat (skipn n (skipn a lines))).
  rewrite <- !concat_app, <- window_decompose.
  symmetry. apply concat_split_lines.
Qed.

Lemma snippet_is_part_of_text_witness :
  exists before after,
    universal_newlines (decode_ignore crlf_file)
    = before ++ extract_code_snippet crlf_fs (lit "f.txt") (-1) 0 ++ after.
Proof.
  apply (snippet_is_part_of_text crlf_fs (lit "f.txt") crlf_file
           (decode_ignore crlf_file) (-1) 0).
  - vm_compute. reflexivity.
  - vm_compute. reflexivity.
Defined.

(** No text that [extract_code_snippet] or [read_readme] returns holds a
    carriage return: text mode has read each as a newline. *)
Theorem no_carriage_return_in_text fs path (L C : Z) :
  ~ In CR (extract_code_snippet fs path L C)
  /\ match read_readme fs path with
     | PyStr s => ~ In CR s
     | PyNone => False
     end.
Proof.
  split.
  - unfold extract_code_snippet, readlines.
    destruct (read_text fs path) as [s|e] eqn:E; cbn [rbind]; [|simpl; tauto].
    apply read_text_no_cr in E. intros H. apply E.
    rewrite <- (concat_split_lines s).
    unfold slice in H.
    rewrite (window_decompose (split_lines s)
               (slice_index (List.length (split_lines s))
                  (Z.max 0 (L - C - 1)))
               (slice_index (List.length (split_lines s))
                  (Z.min (Z.of_nat (List.length (split_lines s))) (L + C))
                - slice_index (List.length (split_lines s)) (Z.max 0 (L - C - 1)))).
    rewrite !concat_app, !in_app_iff. auto.
  - unfold read_readme. induction candidate as [|c cs IH]; simpl; [tauto|].
    destruct (os_path_exists fs (os_path_join path c)); [|exact IH].
    destruct (read_text fs (os_path_join path c)) as [s|e] eqn:E; [|simpl; tauto].
    now apply read_text_no_cr in E.
Qed.

(** ** Line numbers out of range *)

Lemma extract_code_snippet_slice fs file_path content text (L C : Z) :
  read_bytes fs file_path = Ret content ->
  decode_strict content = Ret text ->
  let lines := split_lines (universal_newlines text) in
  extract_code_snippet fs file_path L C
  = List.concat (slice lines (Z.max 0 (L - C - 1))
                       (Z.min (Z.of_nat (List.length lines)) (L + C))).
Proof.
  intros Hread Hdec. unfold extract_code_snippet, readlines, read_text.
  rewrite Hread. cbn [rbind]. rewrite Hdec. reflexivity.
Qed.

(** With a line number so far below zero that [lineno + context] is
    negative, the end of the slice counts from the end of the file: the
    snippet is the whole text but its last [-(lineno + context)] lines. *)
Theorem snippet_negative_end fs file_path content text (L C : Z) :
  read_bytes fs file_path = Ret content ->
  decode_strict content = Ret text ->
  (0 <= C)%Z -> (L + C < 0)%Z ->
  let lines := split_lines (universal_newlines text) in
  extract_code_snippet fs file_path L C
  = List.concat (firstn (List.length lines - Z.to_nat (- (L + C))) lines).
Proof.
  intros Hread Hdec HC HL lines.
  rewrite (extract_code_snippet_slice _ _ _ _ L C Hread Hdec). fold lines.
  unfold slice, slice_index.
  set (len := List.length lines).
  assert (E1 : (Z.max 0 (L - C - 1) <? 0)%Z = false) by (apply Z.ltb_ge; lia).
  assert (E2 : (Z.min (Z.of_nat len) (L + C) <? 0)%Z = true) by (apply Z.ltb_lt; lia).
  rewrite E1, E2.
  replace (Z.to_nat (Z.min (Z.of_nat len) (Z.max 0 (Z.max 0 (L - C - 1))))) with 0%nat
    by lia.
  replace (Z.to_nat (Z.min (Z.of_nat len)
                       (Z.max 0 (Z.min (Z.of_nat len) (L + C) + Z.of_nat len))))
    with (len - Z.to_nat (- (L + C)))%nat by lia.
  cbn [skipn]. now rewrite Nat.sub_0_r.
Qed.

Lemma snippet_negative_end_witness :
  let lines := split_lines (universal_newlines (decode_ignore scenario_a)) in
  extract_code_snippet scenario_a_fs (lit "a.py") (-3) 1
  = List.concat (firstn (List.length lines - 2) lines).
Proof.
  apply (snippet_negative_end scenario_a_fs (lit "a.py") scenario_a
           (decode_ignore scenario_a) (-3) 1).
  - vm_compute. reflexivity.
  - vm_compute. reflexivity.
  - lia.
  - lia.
Defined.

(** The snippet is empty when the window starts at or after the end of the
    file ([lineno - context - 1] is at least the number of lines), and when
    its end is not after its start ([0 <= lineno + context <= max 0 (lineno
    - context - 1)], as for line 0 without context). *)
Theorem snippet_empty_out_of_range fs file_path content text (L C : Z) :
  read_bytes fs file_path = Ret content ->
  decode_strict content = Ret text ->
  (Z.of_nat (List.length (split_lines (universal_newlines text))) <= L - C - 1
   \/ 0 <= L + C <= Z.max 0 (L - C - 1))%Z ->
  extract_code_snippet fs file_path L C = [].
Proof.
  intros Hread Hdec Hout.
  rewrite (extract_code_snippet_slice _ _ _ _ L C Hread Hdec).
  set (lines := split_lines (universal_newlines text)) in *.
  unfold slice, slice_index.
  set (len := List.length lines) in *.
  assert (E1 : (Z.max 0 (L - C - 1) <? 0)%Z = false) by (apply Z.ltb_ge; lia).
  rewrite E1.
  destruct Hout as [Hbeyond|Hend].
  - replace (Z.to_nat (Z.min (Z.of_nat len) (Z.max 0 (Z.max 0 (L - C - 1))))) with len
      by lia.
    unfold len. rewrite skipn_all. now rewrite firstn_nil.
  - assert (E2 : (Z.min (Z.of_nat len) (L + C) <? 0)%Z = false)
      by (apply Z.ltb_ge; lia).
    rewrite E2.
    replace (Z.to_nat (Z.min (Z.of_nat len) (Z.max 0 (Z.min (Z.of_nat len) (L + C))))
             - Z.to_nat (Z.min (Z.of_nat len) (Z.max 0 (Z.max 0 (L - C - 1)))))%nat
      with 0%nat by lia.
    reflexivity.
Qed.

Lemma snippet_empty_out_of_range_witness :
  extract_code_snippet scenario_a_fs (lit "a.py") 100 5 = []
  /\ extract_code_snippet scenario_a_fs (lit "a.py") 0 0 = [].
Proof.
  split.
  - apply (snippet_empty_out_of_range scenario_a_fs (lit "a.py") scenario_a
             (decode_ignore scenario_a) 100 5).
    + vm_compute. reflexivity.
    + vm_compute. reflexivity.
    + left. vm_compute. discriminate.
  - apply (snippet_empty_out_of_range scenario_a_fs (lit "a.py") scenario_a
             (decode_ignore scenario_a) 0 0).
    + vm_compute. reflexivity.
    + vm_compute. reflexivity.
    + right. lia.
Defined.

(** ** Line numbers of the analyzer, as lines of the snippet extractor *)

Lemma split_lines_nil (t : str) : split_lines t = [] -> t = [].
Proof.
  destruct t as [|c t]; [reflexivity|]. simpl.
  destruct (c =? LF); [discriminate|].
  destruct (split_lines t); discriminate.
Qed.

(** The line of a position: with [k] newlines before position [p], line [k]
    (from 0) holds the character at [p], after the part of the text that
    follows the first [k] lines. *)
Lemma split_lines_position (t : str) : forall p,
  (p < List.length t)%nat ->
  exists pre post,
    nth (count_newlines (firstn p t)) (split_lines t) [] = pre ++ nth p t 0 :: post
    /\ firstn p t
       = List.concat (firstn (count_newlines (firstn p t)) (split_lines t)) ++ pre.
Proof.
  induction t as [|c t IH]; intros p Hp; [simpl in Hp; lia|].
  destruct p as [|p].
  - exists []. cbn [firstn nth]. unfold count_newlines. cbn [filter List.length nth].
    simpl split_lines. destruct (c =? LF).
    + exists []. split; reflexivity.
    + destruct (split_lines t) as [|l ls].
      * exists []. split; reflexivity.
      * exists l. split; reflexivity.
  - simpl in Hp. assert (Hp' : (p < List.length t)%nat) by lia.
    destruct (IH p Hp') as (pre & post & Hnth & Hfirst).
    cbn [firstn nth]. unfold count_newlines in *. cbn [filter].
    simpl split_lines. rewrite (N.eqb_sym LF c).
    destruct (c =? LF) eqn:E.
    + exists pre, post. cbn [List.length nth firstn List.concat].
      split; [exact Hnth|].
      rewrite Hfirst at 1. reflexivity.
    + destruct (split_lines t) as [|l ls] eqn:Els.
      * apply split_lines_nil in Els. subst t. simpl in Hp'. lia.
      * destruct (List.length (filter (N.eqb LF) (firstn p t))) as [|j].
        -- exists (c :: pre), post. cbn [nth firstn List.concat] in *.
           split; [now rewrite Hnth|]. now rewrite Hfirst.
        -- exists pre, post. cbn [nth firstn List.concat] in *.
           split; [exact Hnth|].
           rewrite Hfirst at 1. now rewrite <- !app_assoc.
Qed.

Lemma snippet_single_line fs file_path content text (L : Z) :
  read_bytes fs file_path = Ret content ->
  decode_strict content = Ret text ->
  (0 < L)%Z ->
  extract_code_snippet fs file_path L 0
  = nth (Z.to_nat (L - 1)) (split_lines (universal_newlines text)) [].
Proof.
  intros Hread Hdec HL.
  rewrite (extract_code_snippet_slice _ _ _ _ L 0 Hread Hdec).
  rewrite slice_is_window by lia.
  replace (Z.to_nat (Z.max 0 (L - 0 - 1))) with (Z.to_nat (L - 1)) by lia.
  replace (Z.to_nat (Z.min (Z.of_nat (List.length (split_lines (universal_newlines text))))
                       (L + 0)))
    with (Nat.min (List.length (split_lines (universal_newlines text)))
                  (S (Z.to_nat (L - 1)))) by lia.
  apply window_single.
Qed.

Lemma snippet_line_of_position fs file_path content text (p : nat) :
  read_bytes fs file_path = Ret content ->
  decode_strict content = Ret text ->
  ~ In CR text ->
  (p < List.length text)%nat ->
  let lineno := (count_newlines (firstn p text) + 1)%nat in
  exists pre post,
    extract_code_snippet fs file_path (Z.of_nat lineno) 0 = pre ++ nth p text 0 :: post
    /\ firstn p text
       = List.concat (firstn (lineno - 1) (split_lines text)) ++ pre.
Proof.
  intros Hread Hdec Hcr Hp lineno.
  rewrite (snippet_single_line _ _ _ _ _ Hread Hdec) by lia.
  rewrite (universal_newlines_id _ Hcr).
  replace (Z.to_nat (Z.of_nat lineno - 1)) with (count_newlines (firstn p text))
    by (unfold lineno; lia).
  replace (lineno - 1)%nat with (count_newlines (firstn p text)) by (unfold lineno; lia).
  now apply split_lines_position.
Qed.

(** The analyzer and the snippet extractor agree on lines: for a file that
    reads as UTF-8 and has no carriage return, the line number the analyzer
    computes for a position of the text ([1] plus the newlines before it)
    gives, as a snippet without context, the line that holds the character
    at that position, after the text of the lines before. *)
Theorem snippet_of_lineno_holds_position fs file_path content text (p : nat) :
  read_bytes fs file_path = Ret content ->
  decode_strict content = Ret text ->
  ~ In CR text ->
  (p < List.length text)%nat ->
  let lineno := (count_newlines (firstn p text) + 1)%nat in
  exists pre post,
    extract_code_snippet fs file_path (Z.of_nat lineno) 0 = pre ++ nth p text 0 :: post
    /\ firstn p text
       = List.concat (firstn (lineno - 1) (split_lines text)) ++ pre.
Proof.
  intros Hread Hdec Hcr Hp lineno.
  destruct (split_lines_position text p Hp) as (pre & post & Hline & Hbefore).
  exists pre, post. split.
  - rewrite (snippet_single_line _ _ _ _ _ Hread Hdec) by lia.
    rewrite (universal_newlines_id _ Hcr), <- Hline.
    replace (Z.to_nat (Z.of_nat lineno - 1)) with (count_newlines (firstn p text))
      by (unfold lineno; lia).
    reflexivity.
  - replace (lineno - 1)%nat with (count_newlines (firstn p text))
      by (unfold lineno; lia).
    exact Hbefore.
Qed.

Lemma snippet_of_lineno_holds_position_witness :
  exists pre post,
    extract_code_snippet scenario_a_fs (lit "a.py") 4 0
    = pre ++ nth 28 (decode_ignore scenario_a) 0 :: post
    /\ firstn 28 (decode_ignore scenario_a)
       = List.concat (firstn 3 (split_lines (decode_ignore scenario_a))) ++ pre.
Proof.
  apply (snippet_of_lineno_holds_position scenario_a_fs (lit "a.py") scenario_a
           (decode_ignore scenario_a) 28).
  - vm_compute. reflexivity.
  - vm_compute. reflexivity.
  - vm_compute. intuition discriminate.
  - vm_compute. lia.
Defined.

(** A pattern that does not match the empty rest of a text has every match
    start inside the text. *)
Lemma finditer_from_inside (re : list item) :
  (forall prev, match_here re prev [] 0 (0, 0)%nat = None) ->
  forall rest prev pos skip,
    Forall (fun m => (m_start m < pos + List.length rest)%nat)
           (finditer_from re prev rest pos skip).
Proof.
  intros Hre. induction rest as [|c rest IH]; intros prev pos skip.
  - cbn [finditer_from]. destruct skip; [|constructor]. rewrite Hre. constructor.
  - assert (Next : forall prev' skip',
               Forall (fun m => (m_start m < pos + List.length (c :: rest))%nat)
                      (finditer_from re prev' rest (S pos) skip')).
    { intros prev' skip'. eapply Forall_impl; [|apply IH].
      intros m Hm. simpl in *. lia. }
    cbn [finditer_from]. destruct skip; [|apply Next].
    destruct (match_here re prev (c :: rest) 0 (0, 0)%nat) as [[len [go gc]]|];
      [|apply Next].
    constructor; [simpl; lia | apply Next].
Qed.

Lemma func_pattern_not_empty prev : match_here func_pattern prev [] 0 (0, 0)%nat = None.
Proof.
  destruct (match_here func_pattern prev [] 0 (0, 0)%nat) as [[len [go gc]]|] eqn:E;
    [|reflexivity].
  apply func_pattern_shape in E as (w1 & w2 & name & w3 & tail & E & _ & Hne & _).
  symmetry in E. apply app_eq_nil in E as [_ E]. apply app_eq_nil in E as [E _].
  contradiction.
Qed.

Lemma class_pattern_not_empty prev : match_here class_pattern prev [] 0 (0, 0)%nat = None.
Proof.
  destruct (match_here class_pattern prev [] 0 (0, 0)%nat) as [[len [go gc]]|] eqn:E;
    [|reflexivity].
  apply class_pattern_shape in E as (w1 & w2 & name & tail & E & _ & Hne & _).
  symmetry in E. apply app_eq_nil in E as [_ E]. apply app_eq_nil in E as [E _].
  contradiction.
Qed.

Lemma call_pattern_not_empty prev : match_here call_pattern prev [] 0 (0, 0)%nat = None.
Proof.
  destruct (match_here call_pattern prev [] 0 (0, 0)%nat) as [[len [go gc]]|] eqn:E;
    [|reflexivity].
  apply call_pattern_shape in E as (c & name & w & tail & E & _). discriminate.
Qed.

(** What holds of the line number of every position of the text holds of
    the line number of every match. *)
Lemma lineno_of_matches (re : list item) (text : str) (P : nat -> Prop) :
  (forall prev, match_here re prev [] 0 (0, 0)%nat = None) ->
  (forall p, (p < List.length text)%nat -> P (count_newlines (firstn p text) + 1)%nat) ->
  Forall (fun m => P (lineno_of text m)) (finditer re text).
Proof.
  intros Hre HP. unfold finditer.
  eapply Forall_impl; [|apply (finditer_from_inside re Hre text None 0 0)].
  intros m Hm. apply HP. simpl in Hm. lia.
Qed.

(** Every line number the analyzer reports is a line of the file: for a
    file that reads as UTF-8 and has no carriage return, the snippet
    without context at the line number of any symbol or call is that line
    of the text, and it is not empty. *)
Theorem reported_lines_exist (lower : str -> str) fs file_path content text :
  read_bytes fs file_path = Ret content ->
  decode_strict content = Ret text ->
  ~ In CR text ->
  let is_line (n : nat) :=
    extract_code_snippet fs file_path (Z.of_nat n) 0 = nth (n - 1) (split_lines text) []
    /\ extract_code_snippet fs file_path (Z.of_nat n) 0 <> [] in
  exists symbols calls summ,
    parse_with_treesitter lower fs file_path = ParseOk symbols calls summ
    /\ Forall (fun s => is_line (sym_lineno s)) symbols
    /\ Forall (fun c => is_line (call_lineno c)) calls.
Proof.
  intros Hread Hdec Hcr is_line.
  assert (Hpos : forall p, (p < List.length text)%nat ->
                           is_line (count_newlines (firstn p text) + 1)%nat).
  { intros p Hp.
    destruct (snippet_line_of_position _ _ _ _ p Hread Hdec Hcr Hp)
      as (pre & post & Hsnip & _).
    unfold is_line. split.
    - rewrite (snippet_single_line _ _ _ _ _ Hread Hdec) by lia.
      rewrite (universal_newlines_id _ Hcr). f_equal. lia.
    - rewrite Hsnip. now destruct pre. }
  unfold parse_with_treesitter, _read_file_bytes. rewrite Hread.
  rewrite (decode_ignore_of_strict _ _ Hdec).
  do 3 eexists. split; [reflexivity|]. split.
  - apply Forall_app. split; apply Forall_map; cbn [sym_lineno].
    + apply lineno_of_matches; [apply func_pattern_not_empty | exact Hpos].
    + apply lineno_of_matches; [apply class_pattern_not_empty | exact Hpos].
  - apply Forall_map; cbn [call_lineno].
    apply lineno_of_matches; [apply call_pattern_not_empty | exact Hpos].
Qed.

Lemma reported_lines_exist_witness :
  let is_line (n : nat) :=
    extract_code_snippet scenario_a_fs (lit "a.py") (Z.of_nat n) 0
    = nth (n - 1) (split_lines (decode_ignore scenario_a)) []
    /\ extract_code_snippet scenario_a_fs (lit "a.py") (Z.of_nat n) 0 <> [] in
  exists symbols calls summ,
    parse_with_treesitter (fun s => s) scenario_a_fs (lit "a.py")
    = ParseOk symbols calls summ
    /\ Forall (fun s => is_line (sym_lineno s)) symbols
    /\ Forall (fun c => is_line (call_lineno c)) calls.
Proof.
  apply (reported_lines_exist (fun s => s) scenario_a_fs (lit "a.py") scenario_a
           (decode_ignore scenario_a)).
  - vm_compute. reflexivity.
  - vm_compute. reflexivity.
  - vm_compute. intuition discriminate.
Defined.

(** ** [clone_repo] and the file system *)

Lemma str_eqb_sym (a b : str) : str_eqb a b = str_eqb b a.
Proof.
  destruct (str_eqb a b) eqn:E1, (str_eqb b a) eqn:E2; try reflexivity.
  - apply str_eqb_eq in E1; subst. now rewrite str_eqb_refl in E2.
  - apply str_eqb_eq in E2; subst. now rewrite str_eqb_refl in E1.
Qed.

Lemma assoc_set_other {A} (k k' : str) (v : A) l :
  str_eqb k k' = false -> assoc k' (assoc_set k v l) = assoc k' l.
Proof.
  intros Hk. induction l as [|[x w] l IH]; simpl.
  - now rewrite str_eqb_sym, Hk.
  - destruct (str_eqb k x) eqn:E; simpl.
    + apply str_eqb_eq in E; subst x. now rewrite str_eqb_sym, Hk.
    + destruct (str_eqb k' x); [reflexivity | exact IH].
Qed.

Lemma assoc_del_other {A} (k k' : str) (l : list (str * A)) :
  str_eqb k k' = false -> assoc k' (assoc_del k l) = assoc k' l.
Proof.
  intros Hk. unfold assoc_del. induction l as [|[x w] l IH]; simpl; [reflexivity|].
  destruct (str_eqb k x) eqn:E; simpl.
  - apply str_eqb_eq in E; subst x. rewrite (str_eqb_sym k' k), Hk. exact IH.
  - destruct (str_eqb k' x); [reflexivity | exact IH].
Qed.

(** Putting or removing an entry changes nothing at a path that parts ways
    with the path of the entry. *)
Lemma fs_put_other p : forall q n new n',
  diverges p q = true -> fs_put n p new = Some n' -> fs_lookup n' q = fs_lookup n q.
Proof.
  induction p as [|a p IH]; intros [|b q] n new n' Hd Hput; simpl in Hd; try discriminate.
  destruct n as [x|es]; [discriminate|].
  cbn [fs_put] in Hput.
  destruct (str_eqb a b) eqn:Eab.
  - apply str_eqb_eq in Eab; subst b.
    destruct p as [|a' p']; [discriminate|].
    destruct (assoc a es) as [m|] eqn:Em; [|discriminate].
    destruct (fs_put m (a' :: p') new) as [m'|] eqn:Em'; [|discriminate].
    injection Hput as <-. cbn [fs_lookup]. rewrite assoc_set_same, Em.
    eapply IH; eassumption.
  - destruct (match p with
              | [] => Some new
              | _ :: _ => match assoc a es with
                          | Some m => fs_put m p new
                          | None => None
                          end
              end) as [m'|]; [|discriminate].
    injection Hput as <-. cbn [fs_lookup]. now rewrite assoc_set_other.
Qed.

Lemma fs_del_other p : forall q n,
  diverges p q = true -> fs_lookup (fs_del n p) q = fs_lookup n q.
Proof.
  induction p as [|a p IH]; intros [|b q] n Hd; simpl in Hd; try discriminate.
  destruct n as [x|es]; [reflexivity|].
  cbn [fs_del].
  destruct (str_eqb a b) eqn:Eab.
  - apply str_eqb_eq in Eab; subst b.
    destruct p as [|a' p']; [discriminate|].
    destruct (assoc a es) as [m|] eqn:Em; [|reflexivity].
    cbn [fs_lookup]. rewrite assoc_set_same, Em. now apply IH.
  - destruct p as [|a' p'].
    + cbn [fs_lookup]. now rewrite assoc_del_other.
    + destruct (assoc a es) as [m|]; [|reflexivity].
      cbn [fs_lookup]. now rewrite assoc_set_other.
Qed.


(** A clone that [git] completes with the return code 0 is reported as a
    failure, with the message of the [TypeError] of [generate_file_tree] as
    its error, and the checkout stays in the temporary directory. *)
Theorem clone_repo_success_is_reported_failed env url depth fs tmp fs1 err :
  tempfile_mkdtemp env (lit "repo_") fs = (Ret tmp, fs1) ->
  git_outcome env = Completed 0 err ->
  exists fs',
    clone_repo env url depth fs
    = (Ret (CloneFail (lit "realpath() takes 1 positional argument but 2 were given")),
       fs')
    /\ fs_resolve fs' tmp = Some (Dir (git_leaves env)).
Proof.
  intros Hmk Hgit. run_clone. rewrite Hmk, Hgit. cbn [fst snd].
  apply mkdtemp_creates in Hmk as [_ Hdir].
  destruct (fs_put_existing _ _ _ (Dir (git_leaves env)) Hdir) as [fs2 Hput].
  rewrite Hput. change (0 =? 0)%Z with true. cbn [negb]. cbv beta iota.
  assert (Hres : fs_resolve fs2 tmp = Some (Dir (git_leaves env)))
    by (eapply fs_put_lookup; eassumption).
  rewrite (generate_file_tree_dir _ _ _ Hres).
  eexists. split; [reflexivity | exact Hres].
Qed.

Lemma clone_repo_success_is_reported_failed_witness :
  exists fs',
    clone_repo cloning_env (lit "https://example.com/org/demo.git") 1 empty_tmp
    = (Ret (CloneFail (lit "realpath() takes 1 positional argument but 2 were given")),
       fs')
    /\ fs_resolve fs' (lit "/tmp/repo_k3x9_q2a")
       = Some (Dir [(lit "README.md", File (Some (blit "# demo")))]).
Proof.
  apply (clone_repo_success_is_reported_failed cloning_env _ 1%Z empty_tmp
           (lit "/tmp/repo_k3x9_q2a")
           (Dir [(lit "tmp", Dir [(lit "repo_k3x9_q2a", Dir [])])])
           (lit "Cloning into '/tmp/repo_k3x9_q2a'..." ++ [LF])).
  - vm_compute. reflexivity.
  - reflexivity.
Defined.

(** Whatever [git] does, in a world where it writes only into the directory
    it is given, [clone_repo] changes nothing at a path that parts ways with
    the path of its temporary directory: what is elsewhere resolves after
    the call as it did before. *)
Theorem clone_repo_touches_only_tmp env url depth fs (q : str) :
  let tmp := os_path_join (tempdir env) (lit "repo_" ++ fresh_name env) in
  diverges (path_components tmp) (path_components q) = true ->
  fs_resolve (snd (clone_repo env url depth fs)) q = fs_resolve fs q.
Proof.
  intros tmp Hd. unfold fs_resolve.
  assert (Hput : forall n new,
             fs_lookup (match fs_put n (path_components tmp) new with
                        | Some n' => n'
                        | None => n
                        end) (path_components q)
             = fs_lookup n (path_components q)).
  { intros n new. destruct (fs_put n (path_components tmp) new) eqn:E; [|reflexivity].
    eapply fs_put_other; eassumption. }
  run_clone. unfold tempfile_mkdtemp. fold tmp.
  destruct (fs_resolve fs tmp); [reflexivity|].
  destruct (fs_put fs (path_components tmp) (Dir [])) as [fs1|] eqn:E1; [|reflexivity].
  assert (H1 : fs_lookup fs1 (path_components q) = fs_lookup fs (path_components q))
    by (eapply fs_put_other; eassumption).
  destruct (git_outcome env) as [rc err| |e]; cbn [fst snd].
  - destruct (rc =? 0)%Z; cbn [negb]; cbv beta iota.
    + destruct (generate_file_tree _ tmp); cbn [snd]; now rewrite Hput.
    + destruct (rmtree_left env) as [kept|]; cbn [snd].
      * now rewrite !Hput.
      * now rewrite fs_del_other, Hput.
  - cbn [snd]. now rewrite Hput.
  - cbn [snd]. exact H1.
Qed.

Lemma clone_repo_touches_only_tmp_witness :
  diverges (path_components (lit "/tmp/repo_k3x9_q2a"))
           (path_components (lit "/home/notes.txt")) = true
  /\ fs_resolve (snd (clone_repo refusing_env (lit "https://example.com/org/none.git")
                        1 home_fs))
                (lit "/home/notes.txt")
     = fs_resolve home_fs (lit "/home/notes.txt").
Proof.
  split; [vm_compute; reflexivity|].
  apply (clone_repo_touches_only_tmp refusing_env
           (lit "https://example.com/org/none.git") 1%Z home_fs (lit "/home/notes.txt")).
  vm_compute. reflexivity.
Defined.

(** ** Paths and names *)

Lemma after_last_app c a : forall b i f,
  after_last c (a ++ b) i f = after_last c b (i + List.length a) (after_last c a i f).
Proof.
  induction a as [|x a IH]; intros b i f; simpl.
  - now rewrite Nat.add_0_r.
  - rewrite IH. f_equal. lia.
Qed.

Lemma after_last_absent c s : forall i f, ~ In c s -> after_last c s i f = f.
Proof.
  induction s as [|x s IH]; intros i f H; simpl; [reflexivity|].
  destruct (x =? c) eqn:E.
  - apply N.eqb_eq in E. exfalso. apply H. now left.
  - apply IH. intros Hin. apply H. now right.
Qed.

(** The index after the last [c] is within the text, and no [c] follows
    it. *)
Lemma after_last_spec c s : forall i f,
  (f <= i)%nat ->
  let r := after_last c s i f in
  (r = f /\ ~ In c s)
  \/ ((i < r <= i + List.length s)%nat /\ ~ In c (skipn (r - i) s)).
Proof.
  induction s as [|x s IH]; intros i f Hf; simpl.
  - left. tauto.
  - destruct (x =? c) eqn:E.
    + right. destruct (IH (S i) (S i) (Nat.le_refl _)) as [[Hr Hno]|[Hr Hno]].
      * rewrite Hr. split; [lia|].
        replace (S i - i)%nat with 1%nat by lia. exact Hno.
      * split; [lia|].
        replace (after_last c s (S i) (S i) - i)%nat
          with (S (after_last c s (S i) (S i) - S i)) by lia.
        exact Hno.
    + apply N.eqb_neq in E.
      destruct (IH (S i) f ltac:(lia)) as [[Hr Hno]|[Hr Hno]].
      * left. split; [exact Hr|]. intros [->|H]; [congruence | contradiction].
      * right. split; [lia|].
        replace (after_last c s (S i) f - i)%nat
          with (S (after_last c s (S i) f - S i)) by lia.
        exact Hno.
Qed.

(** [os.path.basename] never returns a slash. *)
Lemma basename_no_slash (p : str) : ~ In SLASH (os_path_basename p).
Proof.
  unfold os_path_basename.
  destruct (after_last_spec SLASH p 0 0 (Nat.le_refl _)) as [[Hr Hno]|[Hr Hno]].
  - rewrite Hr. exact Hno.
  - now rewrite Nat.sub_0_r in Hno.
Qed.

(** What follows the last slash of a path is its base name. *)
Lemma basename_after_slash (pre seg : str) :
  ~ In SLASH seg -> os_path_basename (pre ++ SLASH :: seg) = seg.
Proof.
  intros Hno. unfold os_path_basename.
  rewrite after_last_app. cbn [after_last]. change (SLASH =? SLASH) with true.
  cbv iota. rewrite (after_last_absent _ _ _ _ Hno). cbn [Nat.add].
  replace (S (List.length pre)) with (List.length (pre ++ [SLASH]))
    by (rewrite length_app; simpl; lia).
  change (pre ++ SLASH :: seg) with (pre ++ [SLASH] ++ seg).
  rewrite app_assoc, skipn_app, skipn_all, Nat.sub_diag. reflexivity.
Qed.

Lemma rstrip_all chars (s : str) :
  forallb (fun c => char_in c chars) s = true -> rstrip chars s = [].
Proof.
  induction s as [|c s IH]; simpl; [reflexivity|].
  intros H. apply andb_prop in H as [Hc Hs]. now rewrite IH, Hc.
Qed.

Lemma rstrip_app_stripped chars (s tail : str) :
  forallb (fun c => char_in c chars) tail = true ->
  rstrip chars (s ++ tail) = rstrip chars s.
Proof.
  intros H. induction s as [|c s IH]; simpl.
  - now apply rstrip_all.
  - now rewrite IH.
Qed.

Lemma rstrip_kept chars (s : str) (c : N) :
  char_in c chars = false -> rstrip chars (s ++ [c]) = s ++ [c].
Proof.
  intros Hc. induction s as [|x s IH]; simpl.
  - now rewrite Hc.
  - rewrite IH. destruct (s ++ [c]) eqn:E; [|reflexivity].
    now apply app_eq_nil in E as [_ E].
Qed.

Lemma replace_from_no_dot (old new name rest : str) :
  ~ In DOT name ->
  replace_from (DOT :: old) new 0 (name ++ rest)
  = name ++ replace_from (DOT :: old) new 0 rest.
Proof.
  induction name as [|c name IH]; intros Hno; [reflexivity|].
  cbn [app replace_from]. unfold startswith. cbn [strip_prefix].
  destruct (DOT =? c) eqn:E.
  - apply N.eqb_eq in E. exfalso. apply Hno. now left.
  - f_equal. apply IH. intros H. apply Hno. now right.
Qed.

(** For a URL of the usual shape, [.../<name>.git] or [.../<name>], with
    any number of slashes at its end, where [<name>] has no dot and no
    slash, line 17 gives [<name>]. *)
Theorem repo_name_of_plain_url (prefix name slashes : str) :
  ~ In SLASH name -> ~ In DOT name ->
  forallb (N.eqb SLASH) slashes = true ->
  repo_name (prefix ++ SLASH :: name ++ lit ".git" ++ slashes) = name
  /\ (name <> [] -> repo_name (prefix ++ SLASH :: name ++ slashes) = name).
Proof.
  intros Hslash Hdot Hsl.
  assert (Hsl' : forallb (fun c => char_in c (lit "/")) slashes = true).
  { rewrite forallb_forall in *. intros c Hc. apply Hsl in Hc.
    apply N.eqb_eq in Hc; subst c. reflexivity. }
  unfold repo_name. split.
  - replace (prefix ++ SLASH :: name ++ lit ".git" ++ slashes)
      with (((prefix ++ SLASH :: name ++ lit ".gi") ++ lit "t") ++ slashes)
      by (rewrite <- ?app_assoc; cbn [app]; rewrite <- ?app_assoc; reflexivity).
    rewrite (rstrip_app_stripped _ _ _ Hsl').
    change (lit "t") with [116].
    rewrite (rstrip_kept (lit "/") (prefix ++ SLASH :: name ++ lit ".gi") 116 eq_refl).
    replace ((prefix ++ SLASH :: name ++ lit ".gi") ++ [116])
      with (prefix ++ SLASH :: (name ++ lit ".git"))
      by (rewrite <- ?app_assoc; cbn [app]; rewrite <- ?app_assoc; reflexivity).
    rewrite basename_after_slash.
    + unfold replace. change (lit ".git") with (DOT :: lit "git").
      rewrite (replace_from_no_dot _ _ _ _ Hdot). cbn. apply app_nil_r.
    + rewrite in_app_iff. intros [H|H]; [contradiction|].
      cbn in H. intuition discriminate.
  - intros Hne.
    destruct (exists_last Hne) as (name' & c & ->).
    assert (Hc : char_in c (lit "/") = false).
    { cbn. rewrite orb_false_r. apply N.eqb_neq. intros ->.
      apply Hslash. rewrite in_app_iff. right. now left. }
    replace (prefix ++ SLASH :: (name' ++ [c]) ++ slashes)
      with (((prefix ++ SLASH :: name') ++ [c]) ++ slashes)
      by (rewrite <- ?app_assoc; cbn [app]; rewrite <- ?app_assoc; reflexivity).
    rewrite (rstrip_app_stripped _ _ _ Hsl').
    rewrite (rstrip_kept _ _ _ Hc).
    replace ((prefix ++ SLASH :: name') ++ [c]) with (prefix ++ SLASH :: (name' ++ [c]))
      by (rewrite <- ?app_assoc; reflexivity).
    rewrite basename_after_slash by assumption.
    unfold replace. change (lit ".git") with (DOT :: lit "git").
    rewrite <- (app_nil_r (name' ++ [c])) at 1.
    rewrite (replace_from_no_dot _ _ _ _ Hdot). cbn. apply app_nil_r.
Qed.

Lemma repo_name_of_plain_url_witness :
  repo_name (lit "https://github.com/org" ++ SLASH :: lit "codebase-genius"
             ++ lit ".git" ++ lit "//")
  = lit "codebase-genius"
  /\ (lit "codebase-genius" <> [] ->
      repo_name (lit "https://github.com/org" ++ SLASH :: lit "codebase-genius" ++ lit "//")
      = lit "codebase-genius").
Proof.
  apply (repo_name_of_plain_url (lit "https://github.com/org") (lit "codebase-genius")
           (lit "//")).
  - vm_compute. intuition discriminate.
  - vm_compute. intuition discriminate.
  - reflexivity.
Defined.

(** ** The summary *)

Lemma after_last_le_length c (s : str) : (after_last c s 0 0 <= List.length s)%nat.
Proof.
  destruct (after_last_spec c s 0 0 (Nat.le_refl _)) as [[Hr _]|[Hr _]]; lia.
Qed.

Lemma replace_dot_no_dot (s : str) : ~ In DOT (replace [DOT] [] s).
Proof.
  unfold replace. induction s as [|c s IH]; simpl; [tauto|].
  unfold startswith. cbn [strip_prefix].
  destruct (DOT =? c) eqn:E; [exact IH|].
  apply N.eqb_neq in E. intros [H|H]; [congruence | contradiction].
Qed.

(** A path whose base name has no dot has no extension. *)
Lemma splitext_no_dot (p : str) :
  ~ In DOT (os_path_basename p) -> os_path_splitext p = (p, []).
Proof.
  unfold os_path_basename, os_path_splitext. intros Hno.
  set (sep := after_last SLASH p 0 0) in *.
  assert (Hdot : (after_last DOT p 0 0 <= sep)%nat).
  { rewrite <- (firstn_skipn sep p) at 1.
    rewrite after_last_app, (after_last_absent _ _ _ _ Hno).
    etransitivity; [apply after_last_le_length|]. apply firstn_le_length. }
  apply Nat.ltb_ge in Hdot. now rewrite Hdot.
Qed.

(** In the summary of a result the file name holds no slash, and the
    language tag is not empty and holds no dot. *)
Theorem summary_file_and_lang (lower : str -> str) fs file_path :
  match parse_with_treesitter lower fs file_path with
  | ParseOk _ _ summ =>
      ~ In SLASH (file summ) /\ lang summ <> [] /\ ~ In DOT (lang summ)
  | ParseFail _ => True
  end.
Proof.
  unfold parse_with_treesitter.
  destruct (_read_file_bytes fs file_path) as [content|]; [|exact I].
  cbn [file lang]. split; [apply basename_no_slash|].
  pose proof (replace_dot_no_dot (lower (snd (os_path_splitext file_path)))) as Hno.
  destruct (replace [DOT] [] (lower (snd (os_path_splitext file_path)))) as [|c l].
  - split; [discriminate|]. cbn. intuition discriminate.
  - split; [discriminate | exact Hno].
Qed.

(** A file whose name has no dot gets the language tag [txt], whatever the
    directories of its path are called. *)
Theorem lang_of_name_without_dot (lower : str -> str) fs file_path content :
  lower [] = [] ->
  read_bytes fs file_path = Ret content ->
  ~ In DOT (os_path_basename file_path) ->
  exists symbols calls summ,
    parse_with_treesitter lower fs file_path = ParseOk symbols calls summ
    /\ lang summ = lit "txt".
Proof.
  intros Hlower Hread Hno. unfold parse_with_treesitter, _read_file_bytes.
  rewrite Hread. do 3 eexists. split; [reflexivity|].
  cbn [lang]. rewrite (splitext_no_dot _ Hno). cbn [snd]. now rewrite Hlower.
Qed.

Lemma lang_of_name_without_dot_witness :
  exists symbols calls summ,
    parse_with_treesitter (fun s => s)
      (Dir [(lit "pkg.v2", Dir [(lit "Makefile", File (Some (blit "all:")))])])
      (lit "pkg.v2/Makefile")
    = ParseOk symbols calls summ
    /\ lang summ = lit "txt".
Proof.
  apply (lang_of_name_without_dot (fun s => s)
           (Dir [(lit "pkg.v2", Dir [(lit "Makefile", File (Some (blit "all:")))])])
           (lit "pkg.v2/Makefile") (blit "all:")).
  - reflexivity.
  - vm_compute. reflexivity.
  - vm_compute. intuition discriminate.
Defined.

(** ** Files without a parenthesis *)

(** A pattern whose every match holds the character [q] finds nothing in a
    text without [q]. *)
Lemma finditer_from_without (re : list item) (q : N) :
  (forall prev rest r, match_here re prev rest 0 (0, 0)%nat = Some r -> In q rest) ->
  forall rest prev pos skip, ~ In q rest -> finditer_from re prev rest pos skip = [].
Proof.
  intros Hre. induction rest as [|c rest IH]; intros prev pos skip Hno.
  - cbn [finditer_from]. destruct skip; [|reflexivity].
    destruct (match_here re prev [] 0 (0, 0)%nat) as [[len [go gc]]|] eqn:E;
      [|reflexivity].
    apply Hre in E. contradiction.
  - assert (Hrest : ~ In q rest) by (intros H; apply Hno; now right).
    cbn [finditer_from]. destruct skip; [|now apply IH].
    destruct (match_here re prev (c :: rest) 0 (0, 0)%nat) as [[len [go gc]]|] eqn:E;
      [|now apply IH].
    apply Hre in E. contradiction.
Qed.

(** In a file without an opening parenthesis the analyzer finds no call and
    no function: its symbols, if any, are classes. *)
Theorem no_parenthesis_no_call (lower : str -> str) fs file_path content :
  read_bytes fs file_path = Ret content ->
  ~ In 40 (decode_ignore content) ->
  exists symbols summ,
    parse_with_treesitter lower fs file_path = ParseOk symbols [] summ
    /\ Forall (fun s => sym_type s = class) symbols
    /\ num_calls summ = 0%nat.
Proof.
  intros Hread Hno. unfold parse_with_treesitter, _read_file_bytes. rewrite Hread.
  assert (Hcalls : finditer call_pattern (decode_ignore content) = []).
  { apply finditer_from_without with (q := 40); [|exact Hno].
    intros prev rest [len [go gc]] H.
    apply call_pattern_shape in H as (c & name & w & tail & -> & _).
    rewrite !in_app_iff. right. right. left. now left. }
  assert (Hfuncs : finditer func_pattern (decode_ignore content) = []).
  { apply finditer_from_without with (q := 40); [|exact Hno].
    intros prev rest [len [go gc]] H.
    apply func_pattern_shape in H as (w1 & w2 & name & w3 & tail & -> & _).
    rewrite !in_app_iff. right. right. right. left. now left. }
  rewrite Hcalls, Hfuncs. do 2 eexists. cbn [map app List.length num_calls].
  split; [reflexivity|]. split; [|reflexivity].
  apply Forall_map, Forall_forall. reflexivity.
Qed.

Lemma no_parenthesis_no_call_witness :
  exists symbols summ,
    parse_with_treesitter (fun s => s)
      (Dir [(lit "m.py", File (Some (blit "class Marker:")))]) (lit "m.py")
    = ParseOk symbols [] summ
    /\ Forall (fun s => sym_type s = class) symbols
    /\ num_calls summ = 0%nat.
Proof.
  apply (no_parenthesis_no_call (fun s => s)
           (Dir [(lit "m.py", File (Some (blit "class Marker:")))]) (lit "m.py")
           (blit "class Marker:")).
  - vm_compute. reflexivity.
  - vm_compute. intuition discriminate.
Defined.

(** ** The error of a failed clone *)

Lemma strip_blank (s : str) : forallb is_space s = true -> strip s = [].
Proof.
  unfold strip. induction s as [|c s IH]; simpl; [reflexivity|].
  intros H. apply andb_prop in H as [Hc Hs]. rewrite Hc. now apply IH.
Qed.

(** When [git] exits with a non-zero return code and wrote nothing but
    white space on its standard error, the error of the result is the
    empty string. *)
Theorem clone_repo_blank_stderr env url depth fs tmp fs1 rc err :
  tempfile_mkdtemp env (lit "repo_") fs = (Ret tmp, fs1) ->
  git_outcome env = Completed rc err ->
  rc <> 0%Z ->
  forallb is_space err = true ->
  exists fs', clone_repo env url depth fs = (Ret (CloneFail []), fs').
Proof.
  intros Hmk Hgit Hrc Hblank. run_clone. rewrite Hmk, Hgit. cbn [fst snd].
  apply Z.eqb_neq in Hrc. rewrite Hrc. cbn [negb]. cbv beta iota.
  rewrite (strip_blank _ Hblank). destruct (rmtree_left env); eauto.
Qed.

Lemma clone_repo_blank_stderr_witness :
  exists fs',
    clone_repo silent_env (lit "https://example.com/org/big.git") 1 empty_tmp
    = (Ret (CloneFail []), fs').
Proof.
  apply (clone_repo_blank_stderr silent_env _ 1%Z empty_tmp
           (lit "/tmp/repo_k3x9_q2a")
           (Dir [(lit "tmp", Dir [(lit "repo_k3x9_q2a", Dir [])])])
           (-9)%Z [LF]).
  - vm_compute. reflexivity.
  - reflexivity.
  - discriminate.
  - reflexivity.
Defined.

(** ** Definitions are call sites too *)

Section MatcherForward.

Context {R : Type}.
Variable cls : N -> bool.
Variable k : option N -> str -> nat -> option R.

(** When the rest of the pattern does not look at the character before,
    neither does the quantifier. *)
Lemma rep_prev_irrelevant lo hi :
  (forall p p' rest off, k p rest off = k p' rest off) ->
  forall rest count prev prev' off,
    rep cls lo hi k count prev rest off = rep cls lo hi k count prev' rest off.
Proof.
  intros Hk. induction rest as [|c rest IH]; intros count prev prev' off; simpl.
  - now rewrite (Hk prev prev').
  - now rewrite (Hk prev prev').
Qed.

(** A quantifier without upper bound takes the whole run of its class, and
    succeeds when the rest of the pattern matches after the run. *)
Lemma rep_greedy lo : forall taken rest' count prev off r,
  forallb cls taken = true ->
  match rest' with [] => true | x :: _ => negb (cls x) end = true ->
  (lo <= count + List.length taken)%nat ->
  (forall p, k p rest' (off + List.length taken)%nat = Some r) ->
  rep cls lo None k count prev (taken ++ rest') off = Some r.
Proof.
  induction taken as [|t taken IH]; intros rest' count prev off r Hall Hnext Hlo Hk.
  - simpl in *. rewrite Nat.add_0_r in *.
    apply Nat.leb_le in Hlo.
    destruct rest' as [|x rest'']; simpl; rewrite Hlo.
    + apply Hk.
    + apply negb_true_iff in Hnext. rewrite Hnext. simpl. apply Hk.
  - simpl in Hall. apply andb_prop in Hall as [Ht Hall].
    cbn [app rep]. rewrite Ht. cbn [below andb].
    rewrite (IH rest' (S count) (Some t) (S off) r Hall Hnext); [reflexivity| |].
    + simpl in Hlo. lia.
    + intros p. rewrite <- (Hk p). f_equal. simpl. lia.
Qed.

Lemma rep_one_forward c rest prev off r :
  cls c = true ->
  k (Some c) rest (S off) = Some r ->
  rep cls 1 (Some 1%nat) k 0 prev (c :: rest) off = Some r.
Proof.
  intros Hc Hk. cbn [rep]. rewrite Hc. cbn [below andb Nat.ltb Nat.leb].
  assert (E : rep cls 1 (Some 1%nat) k 1 (Some c) rest (S off)
              = k (Some c) rest (S off)).
  { destruct rest as [|d rest']; simpl; [reflexivity|].
    now rewrite andb_false_r. }
  now rewrite E, Hk.
Qed.

End MatcherForward.

Lemma space_not_word c : is_space c = true -> is_word c = false.
Proof.
  unfold is_space, is_word, in_range, char_in. cbn.
  rewrite orb_false_r.
  rewrite !orb_true_iff, !andb_true_iff, !N.leb_le, !N.eqb_eq.
  intros H.
  rewrite !orb_false_iff, !andb_false_iff, !N.leb_gt, N.eqb_neq. lia.
Qed.

Lemma word_not_digit_is_start c :
  is_word c = true -> is_digit c = false -> is_word_start c = true.
Proof.
  unfold is_word, is_word_start, is_digit. intros Hw Hd. rewrite Hd in Hw.
  now rewrite orb_false_r in Hw.
Qed.

Lemma word_start_is_word c : is_word_start c = true -> is_word c = true.
Proof.
  unfold is_word, is_word_start.
  destruct (in_range "A" "Z" c), (in_range "a" "z" c), (char_in c (lit "_"));
    simpl; intros H; try reflexivity; try discriminate; apply orb_true_r.
Qed.

Lemma call_pattern_prev_irrelevant prev prev' rest :
  match_here call_pattern prev rest 0 (0, 0)%nat
  = match_here call_pattern prev' rest 0 (0, 0)%nat.
Proof.
  unfold call_pattern, one, star. cbn [match_here fst snd].
  apply rep_prev_irrelevant. intros p1 p1' r1 o1.
  apply rep_prev_irrelevant. intros p2 p2' r2 o2.
  apply rep_prev_irrelevant. intros p3 p3' r3 o3.
  reflexivity.
Qed.

(** [call_pattern] matches at a name that is followed by spaces and an
    opening parenthesis, and its group is the whole name. *)
Lemma call_pattern_matches_name prev c0 name w tail :
  is_word_start c0 = true ->
  forallb is_word name = true ->
  forallb is_space w = true ->
  match_here call_pattern prev ((c0 :: name) ++ w ++ lit "(" ++ tail) 0 (0, 0)%nat
  = Some ((S (List.length name) + List.length w + 1)%nat, (0, S (List.length name)))%nat.
Proof.
  intros Hc Hname Hw. unfold call_pattern, one, star. cbn [match_here fst snd app].
  apply rep_one_forward; [exact Hc|].
  apply rep_greedy; [exact Hname| |lia|].
  - destruct w as [|x w']; [reflexivity|]. cbn [app].
    simpl in Hw. apply andb_prop in Hw as [Hx _].
    now rewrite (space_not_word _ Hx).
  - intros p. apply rep_greedy; [exact Hw|reflexivity|lia|].
    intros p'. cbn. repeat f_equal; lia.
Qed.

Lemma call_pattern_shape_len prev rest len g :
  match_here call_pattern prev rest 0 (0, 0)%nat = Some (len, g) ->
  exists c name w tail,
    rest = (c :: name) ++ w ++ lit "(" ++ tail
    /\ forallb is_word (c :: name) = true
    /\ forallb is_space w = true
    /\ len = (List.length (c :: name) + List.length w + 1)%nat.
Proof.
  unfold call_pattern, one, star. cbn [match_here fst snd]. intros H.
  apply rep_one in H as (c & rest' & -> & Hc & H).
  apply rep_taken in H as (name & p1 & r1 & -> & Hname & _ & H).
  apply rep_taken in H as (w & p2 & r2 & -> & Hw & _ & H).
  destruct (strip_prefix (lit "(") r2) as [tail|] eqn:E; [|discriminate].
  apply strip_prefix_app in E as ->.
  injection H as <- _.
  exists c, name, w, tail.
  split; [reflexivity|]. split; [|split; [exact Hw|simpl; lia]].
  simpl. now rewrite (word_start_is_word _ Hc), Hname.
Qed.

Lemma func_pattern_shape_spaces prev rest len go gc :
  match_here func_pattern prev rest 0 (0, 0)%nat = Some (len, (go, gc)) ->
  exists w1 w2 name w3 tail,
    rest = (w1 ++ lit "def" ++ w2) ++ name ++ (w3 ++ lit "(" ++ tail)
    /\ forallb is_word name = true /\ name <> []
    /\ forallb is_space w2 = true /\ w2 <> []
    /\ forallb is_space w3 = true
    /\ go = List.length (w1 ++ lit "def" ++ w2)
    /\ gc = (go + List.length name)%nat.
Proof.
  unfold func_pattern, star, plus. cbn [match_here fst snd].
  destruct (at_bol prev); [|discriminate]. intros H.
  apply rep_taken in H as (w1 & p1 & r1 & -> & _ & _ & H).
  destruct (strip_prefix (lit "def") r1) as [r1'|] eqn:E1; [|discriminate].
  apply strip_prefix_app in E1 as ->.
  apply rep_taken in H as (w2 & p2 & r2 & -> & Hw2 & Hlen2 & H).
  apply rep_taken in H as (name & p3 & r3 & -> & Hname & Hlen & H).
  apply rep_taken in H as (w3 & p4 & r4 & -> & Hw3 & _ & H).
  destruct (strip_prefix (lit "(") r4) as [tail|] eqn:E2; [|discriminate].
  apply strip_prefix_app in E2 as ->.
  injection H as _ <- <-.
  exists w1, w2, name, w3, tail.
  split; [now rewrite <- !app_assoc|]. split; [assumption|].
  split; [intros ->; simpl in Hlen; lia|].
  split; [assumption|]. split; [intros ->; simpl in Hlen2; lia|].
  split; [assumption|].
  split; [rewrite !length_app; simpl; lia | reflexivity].
Qed.

(** Every match [finditer] yields is a match of the pattern at some
    position of the text, and its group is cut out of the text there. *)
Lemma finditer_from_In (re : list item) : forall rest prev pos skip m,
  In m (finditer_from re prev rest pos skip) ->
  exists A B prevB len go gc,
    rest = A ++ B
    /\ match_here re prevB B 0 (0, 0)%nat = Some (len, (go, gc))
    /\ m_group1 m = firstn (gc - go) (skipn go B).
Proof.
  induction rest as [|c rest IH]; intros prev pos skip m.
  - cbn [finditer_from]. destruct skip; [|intros []].
    destruct (match_here re prev [] 0 (0, 0)%nat) as [[len [go gc]]|] eqn:E;
      [|intros []].
    intros [<-|[]]. exists [], [], prev, len, go, gc. auto.
  - assert (Next : forall prev' pos' skip',
               In m (finditer_from re prev' rest pos' skip') ->
               exists A B prevB len go gc,
                 c :: rest = A ++ B
                 /\ match_here re prevB B 0 (0, 0)%nat = Some (len, (go, gc))
                 /\ m_group1 m = firstn (gc - go) (skipn go B)).
    { intros prev' pos' skip' H.
      apply IH in H as (A & B & prevB & len & go & gc & -> & H1 & H2).
      exists (c :: A), B, prevB, len, go, gc. auto. }
    cbn [finditer_from]. destruct skip; [|apply Next].
    destruct (match_here re prev (c :: rest) 0 (0, 0)%nat) as [[len [go gc]]|] eqn:E;
      [|apply Next].
    intros [<-|H]; [|eapply Next; exact H].
    exists [], (c :: rest), prev, len, go, gc. auto.
Qed.

(** The search reaches a position where the pattern matches, provided no
    match that starts before this position goes beyond it. *)
Lemma finditer_from_reaches (re : list item) (B : str) len go gc :
  (forall prev, match_here re prev B 0 (0, 0)%nat = Some (len, (go, gc))) ->
  forall A prev pos skip,
    (skip <= List.length A)%nat ->
    (forall A1 A2 prev' len' g',
        A = A1 ++ A2 -> A2 <> [] ->
        match_here re prev' (A2 ++ B) 0 (0, 0)%nat = Some (len', g') ->
        (len' <= List.length A2)%nat) ->
    exists m,
      In m (finditer_from re prev (A ++ B) pos skip)
      /\ m_group1 m = firstn (gc - go) (skipn go B).
Proof.
  intros HB. induction A as [|a A IH]; intros prev pos skip Hskip Hcross.
  - simpl in Hskip. assert (skip = 0%nat) by lia. subst skip.
    cbn [app]. destruct B as [|b B']; cbn [finditer_from]; rewrite HB.
    + eexists. split; [now left | reflexivity].
    + eexists. split; [now left | reflexivity].
  - assert (Hcross' : forall A1 A2 prev' len' g',
               A = A1 ++ A2 -> A2 <> [] ->
               match_here re prev' (A2 ++ B) 0 (0, 0)%nat = Some (len', g') ->
               (len' <= List.length A2)%nat).
    { intros A1 A2 prev' len' g' -> Hne H.
      apply (Hcross (a :: A1) A2 prev' len' g'); auto. }
    cbn [app finditer_from]. destruct skip as [|skip].
    + destruct (match_here re prev (a :: A ++ B) 0 (0, 0)%nat) as [[len' [go' gc']]|] eqn:E.
      * assert (Hlen : (len' <= List.length (a :: A))%nat).
        { apply (Hcross [] (a :: A) prev len' (go', gc')); [reflexivity|discriminate|].
          exact E. }
        destruct (IH (Some a) (S pos) (Nat.pred len')) as (m & Hin & Hg);
          [simpl in Hlen; lia | exact Hcross' |].
        exists m. split; [now right | exact Hg].
      * destruct (IH (Some a) (S pos) (Nat.pred 0)) as (m & Hin & Hg);
          [simpl; lia | exact Hcross' |].
        exists m. split; assumption.
    + destruct (IH (Some a) (S pos) (Nat.pred (S skip))) as (m & Hin & Hg);
        [simpl in *; lia | exact Hcross' |].
      exists m. split; assumption.
Qed.

(** A match of [call_pattern] that starts before a name, where the name
    follows a character that is not of [[A-Za-z0-9_]], ends before the
    name. *)
Lemma call_match_stops_before (A2 : str) (s c0 : N) (B' : str) prev len g :
  is_word s = false -> is_word c0 = true ->
  match_here call_pattern prev ((A2 ++ [s]) ++ c0 :: B') 0 (0, 0)%nat = Some (len, g) ->
  (len <= List.length (A2 ++ [s]))%nat.
Proof.
  intros Hs Hc0 H.
  apply call_pattern_shape_len in H as (c & name & w & tail & E & Hword & Hspace & ->).
  set (I := c :: name) in *. rewrite length_app. cbn [List.length].
  destruct (Nat.le_gt_cases (List.length I + List.length w + 1) (List.length A2 + 1))
    as [Hle|Hgt]; [exact Hle|exfalso].
  assert (E0 : nth (List.length A2) ((A2 ++ [s]) ++ c0 :: B') 0 = s).
  { rewrite app_nth1 by (rewrite length_app; simpl; lia).
    rewrite app_nth2 by lia. now rewrite Nat.sub_diag. }
  assert (E1 : nth (S (List.length A2)) ((A2 ++ [s]) ++ c0 :: B') 0 = c0).
  { rewrite app_nth2 by (rewrite length_app; simpl; lia).
    rewrite length_app. cbn [List.length].
    now replace (S (List.length A2) - (List.length A2 + 1))%nat with 0%nat by lia. }
  rewrite E in E0, E1.
  destruct (Nat.lt_ge_cases (S (List.length A2)) (List.length I)) as [Hin|Hout].
  - (* the character before the name would be in the name of the call *)
    rewrite app_nth1 in E0 by lia.
    rewrite forallb_forall in Hword.
    assert (Hw : is_word s = true)
      by (apply Hword; rewrite <- E0; apply nth_In; lia).
    congruence.
  - rewrite app_nth2 in E1 by lia.
    destruct (Nat.lt_ge_cases (S (List.length A2) - List.length I) (List.length w))
      as [Hin|Hout'].
    + (* the first character of the name would be a space *)
      rewrite app_nth1 in E1 by lia.
      rewrite forallb_forall in Hspace.
      assert (Hsp : is_space c0 = true)
        by (apply Hspace; rewrite <- E1; apply nth_In; lia).
      apply space_not_word in Hsp. congruence.
    + (* the first character of the name would be the parenthesis *)
      rewrite app_nth2 in E1 by lia.
      replace (S (List.length A2) - List.length I - List.length w)%nat with 0%nat in E1
        by lia.
      cbn in E1. subst c0. discriminate.
Qed.

(** The definition of a function is a call site too: for every function
    symbol whose name does not begin with a digit, the calls hold an entry
    with the same name. *)
Theorem function_definitions_are_calls (lower : str -> str) fs file_path :
  match parse_with_treesitter lower fs file_path with
  | ParseOk symbols calls _ =>
      forall s,
        In s symbols -> sym_type s = function ->
        match sym_name s with
        | c :: _ => is_digit c = false
        | [] => True
        end ->
        exists c, In c calls /\ call_name c = sym_name s
  | ParseFail _ => True
  end.
Proof.
  unfold parse_with_treesitter.
  destruct (_read_file_bytes fs file_path) as [content|]; [|exact I].
  set (text := decode_ignore content).
  intros s Hin Hkind Hdigit.
  apply in_app_or in Hin as [Hin|Hin]; apply in_map_iff in Hin as (m & <- & Hm);
    [|discriminate].
  cbn [sym_name] in *. unfold finditer in Hm.
  apply finditer_from_In in Hm as (A & B & prevB & len & go & gc & Htext & Hmatch & Hg).
  apply func_pattern_shape_spaces in Hmatch
    as (w1 & w2 & name & w3 & tail & -> & Hname & Hne & Hw2 & Hne2 & Hw3 & -> & ->).
  rewrite firstn_skipn_middle in Hg. rewrite Hg in *.
  destruct name as [|c0 name']; [congruence|].
  simpl in Hname. apply andb_prop in Hname as [Hc0 Hname].
  destruct (exists_last Hne2) as (w2' & sp & ->).
  assert (Hsp : is_word sp = false).
  { apply space_not_word. rewrite forallb_forall in Hw2. apply Hw2.
    rewrite in_app_iff. right. now left. }
  pose proof (word_not_digit_is_start _ Hc0 Hdigit) as Hstart.
  set (Bn := (c0 :: name') ++ w3 ++ lit "(" ++ tail).
  set (An := (A ++ w1 ++ lit "def" ++ w2') ++ [sp]).
  assert (Htext' : text = An ++ Bn).
  { rewrite Htext. unfold An, Bn. now rewrite <- !app_assoc. }
  destruct (finditer_from_reaches call_pattern Bn
              (S (List.length name') + List.length w3 + 1) 0 (S (List.length name'))
              (fun prev => call_pattern_matches_name prev c0 name' w3 tail
                             Hstart Hname Hw3)
              An None 0 0 (Nat.le_0_l _)) as (mc & Hmc & Hgc).
  - intros A1 A2 prev' len' g' HA Hne' H.
    destruct (exists_last Hne') as (A2' & s' & ->).
    unfold An in HA. rewrite (app_assoc A1 A2' [s']) in HA.
    apply app_inj_tail in HA as [_ HA]. subst s'.
    unfold Bn in H. cbn [app] in H.
    eapply call_match_stops_before; [exact Hsp | exact Hc0 | exact H].
  - exists {| call_name := m_group1 mc; call_lineno := lineno_of text mc |}.
    split.
    + apply in_map_iff. exists mc. split; [reflexivity|].
      unfold finditer. rewrite Htext'. exact Hmc.
    + cbn [call_name]. rewrite Hgc. unfold Bn.
      rewrite Nat.sub_0_r. cbn [skipn app firstn]. f_equal.
      now rewrite firstn_app, firstn_all, Nat.sub_diag, app_nil_r.
Qed.

(** Line 17 removes a [.git] inside the last segment too: for a URL
    [.../<a>.git<b>], with any number of slashes at its end, where [<a>]
    and [<b>] hold no dot and no slash and [<b>] is not empty, the name is
    [<a><b>]. *)
Theorem repo_name_removes_inner_git (prefix a b slashes : str) :
  ~ In SLASH a -> ~ In DOT a ->
  ~ In SLASH b -> ~ In DOT b -> b <> [] ->
  forallb (N.eqb SLASH) slashes = true ->
  repo_name (prefix ++ SLASH :: a ++ lit ".git" ++ b ++ slashes) = a ++ b.
Proof.
  intros Hsa Hda Hsb Hdb Hne Hsl.
  assert (Hsl' : forallb (fun c => char_in c (lit "/")) slashes = true).
  { rewrite forallb_forall in *. intros c Hc. apply Hsl in Hc.
    apply N.eqb_eq in Hc; subst c. reflexivity. }
  destruct (exists_last Hne) as (b' & c & ->).
  assert (Hc : char_in c (lit "/") = false).
  { cbn. rewrite orb_false_r. apply N.eqb_neq. intros ->.
    apply Hsb. rewrite in_app_iff. right. now left. }
  unfold repo_name.
  replace (prefix ++ SLASH :: a ++ lit ".git" ++ (b' ++ [c]) ++ slashes)
    with (((prefix ++ SLASH :: a ++ lit ".git" ++ b') ++ [c]) ++ slashes)
    by (rewrite <- ?app_assoc; cbn [app]; rewrite <- ?app_assoc; reflexivity).
  rewrite (rstrip_app_stripped _ _ _ Hsl'), (rstrip_kept _ _ _ Hc).
  replace ((prefix ++ SLASH :: a ++ lit ".git" ++ b') ++ [c])
    with (prefix ++ SLASH :: (a ++ lit ".git" ++ b' ++ [c]))
    by (rewrite <- ?app_assoc; cbn [app]; rewrite <- ?app_assoc; reflexivity).
  rewrite basename_after_slash.
  - unfold replace. change (lit ".git") with (DOT :: lit "git").
    rewrite (replace_from_no_dot _ _ _ _ Hda). f_equal.
    change ((DOT :: lit "git") ++ b' ++ [c])
      with (DOT :: 103 :: 105 :: 116 :: (b' ++ [c])).
    cbn [replace_from]. unfold startswith. cbn.
    rewrite <- (app_nil_r (b' ++ [c])) at 1.
    change [46; 103; 105; 116] with (DOT :: lit "git").
    rewrite (replace_from_no_dot _ _ _ _ Hdb). cbn. apply app_nil_r.
  - rewrite !in_app_iff. intros [H|[H|H]]; [contradiction| |].
    + cbn in H. intuition discriminate.
    + apply Hsb. rewrite in_app_iff. exact H.
Qed.

Lemma repo_name_removes_inner_git_witness :
  repo_name (lit "https://example.com/org" ++ SLASH :: lit "my" ++ lit ".git"
             ++ lit "hub" ++ lit "/")
  = lit "my" ++ lit "hub".
Proof.
  apply (repo_name_removes_inner_git (lit "https://example.com/org") (lit "my")
           (lit "hub") (lit "/")).
  - vm_compute. intuition discriminate.
  - vm_compute. intuition discriminate.
  - vm_compute. intuition discriminate.
  - vm_compute. intuition discriminate.
  - discriminate.
  - reflexivity.
Defined.
